(** * AnimatedLoginPage: the validation and submission pipeline of [script.js]

    A shallow embedding of the form validators, the form gate
    ([validateField], [validateForm]), the rate limiter
    ([createRateLimiter]), the pseudo-CSRF token manager ([csrfManager])
    and the two submit handlers, with the properties the specification
    states about them.

    Conventions.
    - A JavaScript string is its sequence of UTF-16 code units, a [list N];
      [.length] is [length], [===] is equality of the sequences.
    - Literal texts of the script (messages, ids, class names, storage
      keys) are Rocq [string]s; the empty message is the falsy one.
    - [Date.now()] and [crypto.getRandomValues] are oracles carried by the
      world state: every call consumes the next reading.
    - A [TypeError] raised by dereferencing [null] is an explicit outcome;
      what was mutated before the throw stays mutated. *)

From Stdlib Require Import ZArith NArith List Bool Ascii String Lia.
From Stdlib Require Strings.Byte.
From stdpp Require Import base option list gmap strings pretty.

Open Scope string_scope.
Open Scope list_scope.
Open Scope Z_scope.

(** ** JavaScript strings *)

Abbreviation jsstring := (list N).

(** The code units of an ASCII literal of the script. *)
Definition js (s : string) : jsstring :=
  map N_of_ascii (list_ascii_of_string s).

(** ECMAScript [WhiteSpace] and [LineTerminator] code units: the set that
    [String.prototype.trim] strips and that [\s] matches. *)
Definition isWhiteSpace (c : N) : bool :=
  ((9 <=? c) && (c <=? 13))%N        (* TAB LF VT FF CR *)
  || (c =? 32)%N                     (* SPACE *)
  || (c =? 160)%N                    (* NBSP *)
  || (c =? 5760)%N                   (* U+1680 *)
  || ((8192 <=? c) && (c <=? 8202))%N (* U+2000 .. U+200A *)
  || (c =? 8232)%N || (c =? 8233)%N  (* LS PS *)
  || (c =? 8239)%N                   (* U+202F *)
  || (c =? 8287)%N                   (* U+205F *)
  || (c =? 12288)%N                  (* U+3000 *)
  || (c =? 65279)%N.                 (* U+FEFF *)

Fixpoint trimStart (s : jsstring) : jsstring :=
  match s with
  | c :: s' => if isWhiteSpace c then trimStart s' else s
  | [] => []
  end.

Definition trimEnd (s : jsstring) : jsstring := rev (trimStart (rev s)).

(** [value.trim()] *)
Definition trim (s : jsstring) : jsstring := trimEnd (trimStart s).

(** Truthiness of a string: only the empty string is falsy. *)
Definition truthy (s : jsstring) : bool :=
  match s with [] => false | _ => true end.

(** The same for a literal text of the script. *)
Definition truthyText (s : string) : bool :=
  match s with EmptyString => false | _ => true end.

(** ** Regular expressions

    The two patterns of the script use character classes, sequencing and
    [+] between the anchors [^] and [$]; without the [g], [y] and [m]
    flags [test] asks whether the whole input is in the language and
    keeps no state between calls. Matching is by derivatives. *)

Module Regex.

Inductive regex : Type :=
| Void                             (* matches nothing *)
| Eps                              (* the empty string *)
| Class (p : N -> bool)            (* one code unit of a class *)
| Seq (r1 r2 : regex)
| Alt (r1 r2 : regex)
| Star (r : regex).

(** [r+] *)
Definition Plus (r : regex) : regex := Seq r (Star r).

(** A literal code unit. *)
Definition Lit (c : N) : regex := Class (N.eqb c).

Fixpoint nullable (r : regex) : bool :=
  match r with
  | Void => false
  | Eps => true
  | Class _ => false
  | Seq r1 r2 => nullable r1 && nullable r2
  | Alt r1 r2 => nullable r1 || nullable r2
  | Star _ => true
  end.

Fixpoint deriv (c : N) (r : regex) : regex :=
  match r with
  | Void => Void
  | Eps => Void
  | Class p => if p c then Eps else Void
  | Seq r1 r2 =>
      if nullable r1
      then Alt (Seq (deriv c r1) r2) (deriv c r2)
      else Seq (deriv c r1) r2
  | Alt r1 r2 => Alt (deriv c r1) (deriv c r2)
  | Star r1 => Seq (deriv c r1) (Star r1)
  end.

Fixpoint matches (r : regex) (s : jsstring) : bool :=
  match s with
  | [] => nullable r
  | c :: s' => matches (deriv c r) s'
  end.

(** [/^r$/.test(s)] *)
Definition test (r : regex) (s : jsstring) : bool := matches r s.

(** The language of a pattern. *)
Inductive Lang : regex -> jsstring -> Prop :=
| LEps : Lang Eps []
| LClass p c : p c = true -> Lang (Class p) [c]
| LSeq r1 r2 s1 s2 : Lang r1 s1 -> Lang r2 s2 -> Lang (Seq r1 r2) (s1 ++ s2)
| LAltL r1 r2 s : Lang r1 s -> Lang (Alt r1 r2) s
| LAltR r1 r2 s : Lang r2 s -> Lang (Alt r1 r2) s
| LStarNil r : Lang (Star r) []
| LStarApp r s1 s2 : Lang r s1 -> Lang (Star r) s2 -> Lang (Star r) (s1 ++ s2).

End Regex.

(** Character classes of the script. *)

(** [[a-zA-Z0-9_]] *)
Definition wordChar (c : N) : bool :=
  ((97 <=? c) && (c <=? 122))%N
  || ((65 <=? c) && (c <=? 90))%N
  || ((48 <=? c) && (c <=? 57))%N
  || (c =? 95)%N.

(** [[^\s@]] *)
Definition notSpaceNorAt (c : N) : bool :=
  negb (isWhiteSpace c || (c =? 64)%N).

(** [/^[a-zA-Z0-9_]+$/] *)
Definition usernameRegex : Regex.regex := Regex.Plus (Regex.Class wordChar).

(** [/^[^\s@]+@[^\s@]+\.[^\s@]+$/] *)
Definition emailRegex : Regex.regex :=
  Regex.Seq (Regex.Plus (Regex.Class notSpaceNorAt))
    (Regex.Seq (Regex.Lit 64)
       (Regex.Seq (Regex.Plus (Regex.Class notSpaceNorAt))
          (Regex.Seq (Regex.Lit 46)
             (Regex.Plus (Regex.Class notSpaceNorAt))))).

(** ** The validators that read nothing but their argument *)

Definition validators_name (value : jsstring) : string :=
  if negb (truthy (trim value)) then "Name is required"
  else if (length (trim value) <? 2)%nat then "Name must be at least 2 characters"
  else EmptyString.

Definition validators_username (value : jsstring) : string :=
  if negb (truthy (trim value)) then "Username is required"
  else if (length (trim value) <? 3)%nat then "Username must be at least 3 characters"
  else if negb (Regex.test usernameRegex value) then "Only letters, numbers, and underscores"
  else EmptyString.

Definition validators_email (value : jsstring) : string :=
  if negb (truthy (trim value)) then "Email is required"
  else if negb (Regex.test emailRegex value) then "Please enter a valid email"
  else EmptyString.

Definition validators_password (value : jsstring) : string :=
  if negb (truthy value) then "Password is required"
  else if (length value <? 6)%nat then "Password must be at least 6 characters"
  else EmptyString.

(** ** Rate limiter

    The closure returned by [createRateLimiter] owns [lastCall] and
    [isLimited]; [intervalMs] is its parameter. [Date.now()] is an integral
    number of milliseconds, far below 2^53, so the subtraction and the
    comparison are exact and the readings are integers. *)

Module RateLimiter.

Record t : Type := mk {
  intervalMs : Z;
  lastCall : Z;
  isLimited : bool
}.

(** [createRateLimiter(intervalMs = 2000)] *)
Definition createRateLimiter (arg : option Z) : t :=
  {| intervalMs := default 2000 arg; lastCall := 0; isLimited := false |}.

(** [canProceed()], with the reading [now] of [Date.now()]. *)
Definition canProceed (now : Z) (rl : t) : bool * t :=
  if (intervalMs rl <=? now - lastCall rl)
  then (true, {| intervalMs := intervalMs rl; lastCall := now; isLimited := false |})
  else (false, {| intervalMs := intervalMs rl; lastCall := lastCall rl; isLimited := true |}).

Definition isCurrentlyLimited (rl : t) : bool := isLimited rl.

(** [getRemainingTime()], with the reading [now] of [Date.now()]. *)
Definition getRemainingTime (now : Z) (rl : t) : Z :=
  Z.max 0 (intervalMs rl - (now - lastCall rl)).

End RateLimiter.

(** ** The page and the world *)

Inductive FormId : Type := SignInForm | SignUpForm.

#[global] Instance FormId_eq_dec : EqDecision FormId.
Proof. solve_decision. Defined.

(** An input of the page. [elForm] is the form it is a descendant of,
    [elGroup] the index, in the page's store of groups, of its closest
    ancestor of class [input-group] ([None]: it has none). Two inputs may
    name the same group. *)
Record Element : Type := mkElement {
  elId : string;
  elForm : option FormId;
  elValue : jsstring;
  elChecked : bool;
  elGroup : option nat
}.

(** An element of class [input-group]: its class list and the text of its
    descendant of class [error-message] ([None]: it has none). *)
Record InputGroup : Type := mkInputGroup {
  classList : gset string;
  errorMessage : option string
}.

(** The submit button of a form. *)
Record Button : Type := mkButton {
  btnClassList : gset string;
  btnDisabled : bool
}.

Inductive ToastType : Type := success | error | info.

Inductive ValidatorKey : Type := name | username | email | password | confirmPassword.

(** What a timer started by [setTimeout] will run. *)
Inductive TimerTask : Type :=
| SubmissionDone (form : FormId)   (* the callback of [simulateFormSubmission] *)
| HideToast (index : nat)          (* the auto-removal of a toast *)
| SwitchToSignIn.                  (* [container.classList.remove("active")] *)

(** What a run leaves behind, in order. *)
Inductive Event : Type :=
| EvPreventDefault (form : FormId)
| EvCanProceed (form : FormId) (accepted : bool)
| EvValidateForm (form : FormId) (isValid : bool)
| EvValidator (key : ValidatorKey) (value : jsstring) (result : string)
| EvFormDataAppend (field : string) (value : jsstring)
| EvConsoleLog (value : jsstring)
| EvBusy (form : FormId) (busy : bool)
| EvSetTimeout (delay : Z) (task : TimerTask)
| EvGenerateToken (token : jsstring)
| EvRefreshToken
| EvStorage (key : string) (value : option string)
| EvToast (type : ToastType) (message : string).

Record Page : Type := mkPage {
  elements : list Element;                (* in document order *)
  groups : list InputGroup;
  signInButton : option Button;           (* [signInForm.querySelector(".btn-primary")] *)
  signUpButton : option Button;
  formControls : FormId -> list (string * jsstring);
                                          (* what [new FormData(form)] collects *)
  containerClassList : gset string;
  toastContainer : list (ToastType * string)
}.

Record World : Type := mkWorld {
  page : Page;
  localStorage : gmap string string;
  signInRateLimiter : RateLimiter.t;
  signUpRateLimiter : RateLimiter.t;
  csrfToken : option jsstring;            (* [csrfManager.token], [None] for [null] *)
  clock : nat -> Z;                       (* the readings of [Date.now()] *)
  clockReads : nat;
  entropy : nat -> Byte.byte;             (* the bytes of [crypto.getRandomValues] *)
  entropyReads : nat
}.

Definition set_page (p : Page) (w : World) : World :=
  mkWorld p (localStorage w) (signInRateLimiter w) (signUpRateLimiter w)
    (csrfToken w) (clock w) (clockReads w) (entropy w) (entropyReads w).

Definition set_localStorage (s : gmap string string) (w : World) : World :=
  mkWorld (page w) s (signInRateLimiter w) (signUpRateLimiter w)
    (csrfToken w) (clock w) (clockReads w) (entropy w) (entropyReads w).

Definition rateLimiterOf (f : FormId) (w : World) : RateLimiter.t :=
  match f with
  | SignInForm => signInRateLimiter w
  | SignUpForm => signUpRateLimiter w
  end.

Definition set_rateLimiter (f : FormId) (rl : RateLimiter.t) (w : World) : World :=
  match f with
  | SignInForm =>
      mkWorld (page w) (localStorage w) rl (signUpRateLimiter w)
        (csrfToken w) (clock w) (clockReads w) (entropy w) (entropyReads w)
  | SignUpForm =>
      mkWorld (page w) (localStorage w) (signInRateLimiter w) rl
        (csrfToken w) (clock w) (clockReads w) (entropy w) (entropyReads w)
  end.

Definition set_csrfToken (t : option jsstring) (w : World) : World :=
  mkWorld (page w) (localStorage w) (signInRateLimiter w) (signUpRateLimiter w)
    t (clock w) (clockReads w) (entropy w) (entropyReads w).

Definition set_clockReads (n : nat) (w : World) : World :=
  mkWorld (page w) (localStorage w) (signInRateLimiter w) (signUpRateLimiter w)
    (csrfToken w) (clock w) n (entropy w) (entropyReads w).

Definition set_entropyReads (n : nat) (w : World) : World :=
  mkWorld (page w) (localStorage w) (signInRateLimiter w) (signUpRateLimiter w)
    (csrfToken w) (clock w) (clockReads w) (entropy w) n.

Definition set_groups (g : list InputGroup) (p : Page) : Page :=
  mkPage (elements p) g (signInButton p) (signUpButton p) (formControls p)
    (containerClassList p) (toastContainer p).

Definition set_elements (e : list Element) (p : Page) : Page :=
  mkPage e (groups p) (signInButton p) (signUpButton p) (formControls p)
    (containerClassList p) (toastContainer p).

Definition buttonOf (f : FormId) (p : Page) : option Button :=
  match f with
  | SignInForm => signInButton p
  | SignUpForm => signUpButton p
  end.

Definition set_button (f : FormId) (b : option Button) (p : Page) : Page :=
  match f with
  | SignInForm =>
      mkPage (elements p) (groups p) b (signUpButton p) (formControls p)
        (containerClassList p) (toastContainer p)
  | SignUpForm =>
      mkPage (elements p) (groups p) (signInButton p) b (formControls p)
        (containerClassList p) (toastContainer p)
  end.

Definition set_toastContainer (t : list (ToastType * string)) (p : Page) : Page :=
  mkPage (elements p) (groups p) (signInButton p) (signUpButton p) (formControls p)
    (containerClassList p) t.

(** ** Computations of the script

    A computation takes the world and yields its completion (a value or a
    [TypeError]), the world it leaves and the events it caused, in order.
    A throw keeps the world and the events reached so far. *)

Inductive Completion (A : Type) : Type :=
| Normal (a : A)
| Throw (what : string).

Arguments Normal {A} a.
Arguments Throw {A} what.

Definition M (A : Type) : Type := World -> Completion A * World * list Event.

Definition ret {A} (a : A) : M A := fun w => (Normal a, w, []).

Definition bind {A B} (c : M A) (k : A -> M B) : M B :=
  fun w =>
    match c w with
    | (Normal a, w1, ev1) =>
        match k a w1 with
        | (r, w2, ev2) => (r, w2, ev1 ++ ev2)
        end
    | (Throw e, w1, ev1) => (Throw e, w1, ev1)
    end.

Definition throwTypeError {A} (what : string) : M A := fun w => (Throw what, w, []).

Definition get : M World := fun w => (Normal w, w, []).

Definition modify (f : World -> World) : M unit := fun w => (Normal tt, f w, []).

Definition emit (e : Event) : M unit := fun w => (Normal tt, w, [e]).

Notation "x <- c ;; k" := (bind c (fun x => k))
  (at level 100, c at next level, right associativity).
Notation "c ;;; k" := (bind c (fun _ => k))
  (at level 100, right associativity).

(** The three parts of a run. *)
Definition completion {A} (r : Completion A * World * list Event) : Completion A := r.1.1.
Definition world {A} (r : Completion A * World * list Event) : World := r.1.2.
Definition events {A} (r : Completion A * World * list Event) : list Event := r.2.

(** [l.forEach(body)] where the callback updates a captured local. *)
Fixpoint forEach {A S} (l : list A) (body : A -> S -> M S) (s : S) : M S :=
  match l with
  | [] => ret s
  | a :: l' => s' <- body a s ;; forEach l' body s'
  end.

(** [Date.now()] *)
Definition dateNow : M Z :=
  w <- get ;;
  modify (set_clockReads (S (clockReads w))) ;;;
  ret (clock w (clockReads w)).

(** [crypto.getRandomValues(new Uint8Array(n))] *)
Definition getRandomValues (n : nat) : M (list Byte.byte) :=
  w <- get ;;
  modify (set_entropyReads (entropyReads w + n)%nat) ;;;
  ret (map (entropy w) (seq (entropyReads w) n)).

(** [setTimeout(task, delay)] *)
Definition setTimeout (task : TimerTask) (delay : Z) : M unit :=
  emit (EvSetTimeout delay task).

(** ** Rate limiters of the two forms *)

(** [signInRateLimiter.canProceed()] and [signUpRateLimiter.canProceed()] *)
Definition canProceed (form : FormId) : M bool :=
  now <- dateNow ;;
  w <- get ;;
  let r := RateLimiter.canProceed now (rateLimiterOf form w) in
  modify (set_rateLimiter form r.2) ;;;
  emit (EvCanProceed form r.1) ;;;
  ret r.1.

Definition getRemainingTime (form : FormId) : M Z :=
  now <- dateNow ;;
  w <- get ;;
  ret (RateLimiter.getRemainingTime now (rateLimiterOf form w)).

(** [Math.ceil(ms / 1000)] of an integer [ms]. *)
Definition ceilSeconds (ms : Z) : Z := - ((- ms) / 1000).

(** ** CSRF token manager *)

(** The digit of [d < 16] in [toString(16)]: [0-9a-f]. *)
Definition hexDigit (d : N) : N := if (d <? 10)%N then (48 + d)%N else (87 + d)%N.

(** [byte.toString(16)] of an element of a [Uint8Array]: one or two digits. *)
Definition toString16 (byte : Byte.byte) : jsstring :=
  let n := Byte.to_N byte in
  if (n <? 16)%N then [hexDigit n] else [hexDigit (n / 16); hexDigit (n mod 16)].

(** [s.padStart(targetLength, pad)] with a pad of one code unit. *)
Definition padStart (targetLength : nat) (pad : N) (s : jsstring) : jsstring :=
  repeat pad (targetLength - length s) ++ s.

(** [Array.from(array, byte => byte.toString(16).padStart(2, '0')).join('')] *)
Definition hexEncode (array : list Byte.byte) : jsstring :=
  concat (map (fun byte => padStart 2 48 (toString16 byte)) array).

Definition generateToken : M jsstring :=
  array <- getRandomValues 32 ;;
  let token := hexEncode array in
  modify (set_csrfToken (Some token)) ;;;
  emit (EvGenerateToken token) ;;;
  ret token.

(** [if (!this.token) this.generateToken(); return this.token]: after
    [generateToken] the token is the one it returned. *)
Definition getToken : M jsstring :=
  w <- get ;;
  match csrfToken w with
  | Some token => if truthy token then ret token else generateToken
  | None => generateToken
  end.

Definition addToFormData (formData : list (string * jsstring))
  : M (list (string * jsstring)) :=
  token <- getToken ;;
  emit (EvFormDataAppend "_csrf" token) ;;;
  ret (formData ++ [("_csrf", token)]).

Definition validateToken (token : jsstring) : M bool :=
  w <- get ;;
  ret (bool_decide (Some token = csrfToken w)).

Definition refreshToken : M jsstring :=
  emit EvRefreshToken ;;;
  generateToken.

(** ** Queries on the page *)

(** [form.querySelector(`#${id}`)]: the first descendant of the form with
    that id. *)
Definition querySelectorId (form : FormId) (id : string) : M (option Element) :=
  w <- get ;;
  ret (find (fun e => bool_decide (elForm e = Some form) && bool_decide (elId e = id))
         (elements (page w))).

(** [document.getElementById(id)] *)
Definition getElementById (id : string) : M (option Element) :=
  w <- get ;;
  ret (find (fun e => bool_decide (elId e = id)) (elements (page w))).

(** [input.closest(".input-group")] *)
Definition closest (input : Element) : M (option nat) :=
  w <- get ;;
  ret (g ← elGroup input; _ ← groups (page w) !! g; Some g).

Definition updateGroup (g : nat) (f : InputGroup -> InputGroup) : M unit :=
  modify (fun w => set_page (set_groups (alter f g (groups (page w))) (page w)) w).

(** [inputGroup.classList.add(c)] *)
Definition classListAdd (g : nat) (c : string) : M unit :=
  updateGroup g (fun grp => mkInputGroup ({[c]} ∪ classList grp) (errorMessage grp)).

(** [inputGroup.classList.remove(c)] *)
Definition classListRemove (g : nat) (c : string) : M unit :=
  updateGroup g (fun grp => mkInputGroup (classList grp ∖ {[c]}) (errorMessage grp)).

(** [errorElement.textContent = text], where [errorElement] is
    [inputGroup.querySelector(".error-message")]; a [TypeError] when the
    group has no such descendant. *)
Definition setErrorText (g : nat) (text : string) : M unit :=
  w <- get ;;
  match groups (page w) !! g ≫= errorMessage with
  | Some _ => updateGroup g (fun grp => mkInputGroup (classList grp) (Some text))
  | None => throwTypeError "errorElement is null"
  end.

(** ** Form validation *)

Definition validators_confirmPassword (value : jsstring) : M string :=
  if negb (truthy value) then ret "Please confirm your password"
  else
    el <- getElementById "signUpPassword" ;;
    let password := elValue <$> el in          (* [?.value]: [None] is [undefined] *)
    if negb (bool_decide (Some value = password)) then ret "Passwords do not match"
    else ret EmptyString.

(** [validators[validatorKey](value)] *)
Definition validators (validatorKey : ValidatorKey) (value : jsstring) : M string :=
  match validatorKey with
  | name => ret (validators_name value)
  | username => ret (validators_username value)
  | email => ret (validators_email value)
  | password => ret (validators_password value)
  | confirmPassword => validators_confirmPassword value
  end.

Definition validateField (input : Element) (validatorKey : ValidatorKey) : M bool :=
  inputGroup <- closest input ;;
  match inputGroup with
  | None => throwTypeError "inputGroup is null"
  | Some g =>
      error <- validators validatorKey (elValue input) ;;
      emit (EvValidator validatorKey (elValue input) error) ;;;
      if truthyText error then
        classListRemove g "success" ;;;
        classListAdd g "error" ;;;
        setErrorText g error ;;;
        ret false
      else
        classListRemove g "error" ;;;
        setErrorText g EmptyString ;;;
        (if truthy (trim (elValue input))
         then classListAdd g "success"
         else classListRemove g "success") ;;;
        ret true
  end.

Record FieldSpec : Type := mkField {
  id : string;
  validator : ValidatorKey
}.

Definition validateForm (form : FormId) (fields : list FieldSpec) : M bool :=
  isValid <- forEach fields
    (fun field isValid =>
       input <- querySelectorId form (id field) ;;
       match input with
       | Some input =>
           ok <- validateField input (validator field) ;;
           ret (if negb ok then false else isValid)
       | None => ret isValid
       end) true ;;
  emit (EvValidateForm form isValid) ;;;
  ret isValid.

(** ** Toasts and the simulated submission *)

Definition showToast (message : string) (type : ToastType) : M unit :=
  w <- get ;;
  let toasts := toastContainer (page w) in
  modify (fun w => set_page (set_toastContainer (toasts ++ [(type, message)]) (page w)) w) ;;;
  emit (EvToast type message) ;;;
  setTimeout (HideToast (length toasts)) 3000.

(** The executor of the promise of [simulateFormSubmission(form, button)]:
    it runs at once, up to the start of the timer. *)
Definition simulateFormSubmission (form : FormId) (button : option Button) : M unit :=
  match button with
  | None => throwTypeError "button is null"
  | Some _ =>
      modify (fun w =>
        set_page (set_button form
          ((fun b => mkButton ({["loading"]} ∪ btnClassList b) true) <$> buttonOf form (page w))
          (page w)) w) ;;;
      emit (EvBusy form true) ;;;
      setTimeout (SubmissionDone form) 1500
  end.

(** The callback of that timer; it resolves the promise. The callback
    holds the button it was started with. *)
Definition submissionDone (form : FormId) : M unit :=
  modify (fun w =>
    set_page (set_button form
      ((fun b => mkButton (btnClassList b ∖ {["loading"]}) false) <$> buttonOf form (page w))
      (page w)) w) ;;;
  emit (EvBusy form false).

(** [localStorage.setItem] and [localStorage.removeItem] *)
Definition setItem (key value : string) : M unit :=
  modify (fun w => set_localStorage (<[key := value]> (localStorage w)) w) ;;;
  emit (EvStorage key (Some value)).

Definition removeItem (key : string) : M unit :=
  modify (fun w => set_localStorage (delete key (localStorage w)) w) ;;;
  emit (EvStorage key None).

(** ** The submit handlers

    An [async] handler runs up to its [await] in the event that started
    it; the rest runs when the timer of the simulated submission fires,
    in whatever world the events in between have left. *)

Definition signInFields : list FieldSpec :=
  [ mkField "signInEmail" email; mkField "signInPassword" password ].

Definition signUpFields : list FieldSpec :=
  [ mkField "signUpName" name; mkField "signUpUsername" username;
    mkField "signUpEmail" email; mkField "signUpPassword" password;
    mkField "signUpConfirmPassword" confirmPassword ].

Definition fieldsOf (form : FormId) : list FieldSpec :=
  match form with
  | SignInForm => signInFields
  | SignUpForm => signUpFields
  end.

(** The part the two handlers share word for word, up to [await]; the
    result tells whether the handler is suspended there. *)
Definition submitHandler (form : FormId) : M bool :=
  emit (EvPreventDefault form) ;;;
  ok <- canProceed form ;;
  if negb ok then
    ms <- getRemainingTime form ;;
    let remaining := ceilSeconds ms in
    showToast ("Please wait " +:+ pretty remaining +:+ "s before trying again") error ;;;
    ret false
  else
    valid <- validateForm form (fieldsOf form) ;;
    if negb valid then
      showToast "Please fix the errors above" error ;;;
      ret false
    else
      w <- get ;;
      let button := buttonOf form (page w) in
      let formData := formControls (page w) form in
      _ <- addToFormData formData ;;
      token <- getToken ;;
      emit (EvConsoleLog token) ;;;
      simulateFormSubmission form button ;;;
      ret true.

(** After [await]: the timer callback, then the rest of the handler. *)
Definition signInResume : M unit :=
  submissionDone SignInForm ;;;
  _ <- refreshToken ;;
  rememberMe <- getElementById "rememberMe" ;;
  match rememberMe with
  | None => throwTypeError "rememberMe is null"
  | Some box =>
      (if elChecked box then setItem "rememberMe" "true" else removeItem "rememberMe") ;;;
      showToast "Welcome back! Signing you in..." success
  end.

Definition signUpResume : M unit :=
  submissionDone SignUpForm ;;;
  _ <- refreshToken ;;
  showToast "Account created successfully!" success ;;;
  setTimeout SwitchToSignIn 1000.

Definition resumeHandler (form : FormId) : M unit :=
  match form with
  | SignInForm => signInResume
  | SignUpForm => signUpResume
  end.

(** The steps of a submission, with what each one answered. *)
Inductive Step : Type :=
| RateLimitCheck (accepted : bool)
| Validation (isValid : bool)
| BusyEntry
| TimedWait
| BusyExit
| TokenRefresh
| Notification (type : ToastType).

Definition stepOf (e : Event) : option Step :=
  match e with
  | EvCanProceed _ accepted => Some (RateLimitCheck accepted)
  | EvValidateForm _ isValid => Some (Validation isValid)
  | EvBusy _ true => Some BusyEntry
  | EvSetTimeout _ (SubmissionDone _) => Some TimedWait
  | EvBusy _ false => Some BusyExit
  | EvRefreshToken => Some TokenRefresh
  | EvToast type _ => Some (Notification type)
  | _ => None
  end.

Definition steps (evs : list Event) : list Step := omap stepOf evs.

(** The sequence of a submission that goes through. *)
Definition submissionSteps : list Step :=
  [RateLimitCheck true; Validation true; BusyEntry; TimedWait; BusyExit; TokenRefresh;
   Notification success].

(** The rest of [submitHandler] once the form is valid. *)
Definition attachAndSubmit (form : FormId) : M bool :=
  w <- get ;;
  let button := buttonOf form (page w) in
  let formData := formControls (page w) form in
  _ <- addToFormData formData ;;
  token <- getToken ;;
  emit (EvConsoleLog token) ;;;
  simulateFormSubmission form button ;;;
  ret true.

(** The events of one submission: those of the handler up to [await] in
    the world [w1] of the submit event and, when it is suspended there,
    those of the rest in the world [w2] the timer fires in. *)
Definition submissionEvents (form : FormId) (w1 w2 : World) : list Event :=
  let r := submitHandler form w1 in
  match completion r with
  | Normal true => events r ++ events (resumeHandler form w2)
  | _ => events r
  end.

(** [signInForm]'s and [signUpForm]'s handlers up to [await]. *)
Definition signInSubmit : M bool := submitHandler SignInForm.
Definition signUpSubmit : M bool := submitHandler SignUpForm.

(** The world when the script has been evaluated: two limiters with a
    cooldown of 2000 ms, and a first token (its line 122). *)
Definition scriptLoaded (p : Page) (storage : gmap string string)
    (clock : nat -> Z) (entropy : nat -> Byte.byte) : World :=
  world (generateToken
    (mkWorld p storage
       (RateLimiter.createRateLimiter (Some 2000))
       (RateLimiter.createRateLimiter (Some 2000))
       None clock 0%nat entropy 0%nat)).

(** ** Notions the properties are stated with *)

(** The shape the e-mail pattern asks for, in the words of the
    specification: characters that are neither white space nor [@], then
    [@], then such characters, then [.], then such characters, each run
    non-empty. *)
Definition plainChar (c : N) : Prop := isWhiteSpace c = false /\ c <> 64%N.

Definition emailShape (value : jsstring) : Prop :=
  exists s1 s2 s3 : jsstring,
    value = s1 ++ [64%N] ++ s2 ++ [46%N] ++ s3 /\
    s1 <> [] /\ s2 <> [] /\ s3 <> [] /\
    Forall plainChar s1 /\ Forall plainChar s2 /\ Forall plainChar s3.

(** The value [document.getElementById("signUpPassword")?.value] has in a
    world: [None] is [undefined]. *)
Definition passwordFieldValue (w : World) : option jsstring :=
  elValue <$> find (fun e => bool_decide (elId e = "signUpPassword")) (elements (page w)).

(** The user edits the first input with the given id. *)
Fixpoint editFirst (id : string) (text : jsstring) (els : list Element) : list Element :=
  match els with
  | [] => []
  | e :: els' =>
      if bool_decide (elId e = id)
      then mkElement (elId e) (elForm e) text (elChecked e) (elGroup e) :: els'
      else e :: editFirst id text els'
  end.

Definition typeInto (id : string) (text : jsstring) (w : World) : World :=
  set_page (set_elements (editFirst id text (elements (page w))) (page w)) w.

(** What a validator answers in a world; it reads the world at most. *)
Definition validatorMessage (key : ValidatorKey) (value : jsstring) (w : World) : string :=
  match key with
  | name => validators_name value
  | username => validators_username value
  | email => validators_email value
  | password => validators_password value
  | confirmPassword =>
      if negb (truthy value) then "Please confirm your password"
      else if negb (bool_decide (Some value = passwordFieldValue w))
           then "Passwords do not match" else EmptyString
  end.

(** The input a field spec names in a form: [form.querySelector] of its id. *)
Definition resolve (form : FormId) (p : Page) (field : FieldSpec) : option Element :=
  find (fun e => bool_decide (elForm e = Some form) && bool_decide (elId e = id field))
    (elements p).



(** The world with other input groups. *)
Definition withGroups (gs : list InputGroup) (w : World) : World :=
  set_page (set_groups gs (page w)) w.

(** What [validateField] makes of the input's group, given the message of
    the validator and the value of the input. *)
Definition markGroup (message : string) (value : jsstring) (grp : InputGroup) : InputGroup :=
  if truthyText message
  then mkInputGroup ({["error"]} ∪ (classList grp ∖ {["success"]})) (Some message)
  else mkInputGroup
         (if truthy (trim value)
          then {["success"]} ∪ (classList grp ∖ {["error"]})
          else (classList grp ∖ {["error"]}) ∖ {["success"]})
         (Some EmptyString).



(** The validator calls among the events: key and argument, in order. *)
Definition validatorCalls (evs : list Event) : list (ValidatorKey * jsstring) :=
  omap (fun ev => match ev with EvValidator k v _ => Some (k, v) | _ => None end) evs.



(** The events of [validateForm]'s loop. *)
Definition fieldEvents (form : FormId) (w : World) (fields : list FieldSpec) : list Event :=
  omap (fun field =>
          (fun e => EvValidator (validator field) (elValue e)
                      (validatorMessage (validator field) (elValue e) w))
            <$> resolve form (page w) field) fields.



(** The body of the loop of [validateForm]. *)
Definition validateFormBody (form : FormId) (field : FieldSpec) (isValid : bool) : M bool :=
  input <- querySelectorId form (id field) ;;
  match input with
  | Some input =>
      ok <- validateField input (validator field) ;;
      ret (if negb ok then false else isValid)
  | None => ret isValid
  end.

(** ** A page to run the script on

    The scenario of the specification: a sign-up form filled with name
    "Al", username "al_99", e-mail "al@x.co" and password "secret1" twice,
    a sign-in form with the same e-mail and password and the "remember
    me" box ticked; every text input in an input group of its own, each
    with an error element. *)

Definition examplePage : Page :=
  mkPage
    [ mkElement "signInEmail" (Some SignInForm) (js "al@x.co") false (Some 0%nat);
      mkElement "signInPassword" (Some SignInForm) (js "secret1") false (Some 1%nat);
      mkElement "rememberMe" (Some SignInForm) (js "on") true None;
      mkElement "signUpName" (Some SignUpForm) (js "Al") false (Some 2%nat);
      mkElement "signUpUsername" (Some SignUpForm) (js "al_99") false (Some 3%nat);
      mkElement "signUpEmail" (Some SignUpForm) (js "al@x.co") false (Some 4%nat);
      mkElement "signUpPassword" (Some SignUpForm) (js "secret1") false (Some 5%nat);
      mkElement "signUpConfirmPassword" (Some SignUpForm) (js "secret1") false (Some 6%nat) ]
    (replicate 7 (mkInputGroup {["input-group"]} (Some EmptyString)))
    (Some (mkButton {["btn-primary"]} false))
    (Some (mkButton {["btn-primary"]} false))
    (fun form =>
       match form with
       | SignInForm => [("email", js "al@x.co"); ("password", js "secret1")]
       | SignUpForm => [("name", js "Al"); ("username", js "al_99");
                        ("email", js "al@x.co"); ("password", js "secret1");
                        ("confirmPassword", js "secret1")]
       end)
    {["container"]}
    [].

(** A clock that advances 7 ms per reading and a fixed run of bytes. *)
Definition exampleClock (n : nat) : Z := 1700000000000 + 7 * Z.of_nat n.

Definition exampleEntropy (n : nat) : Byte.byte :=
  default Byte.x00 (Byte.of_N (N.of_nat ((37 * n + 11) mod 256))).

Definition exampleWorld : World :=
  scriptLoaded examplePage ∅ exampleClock exampleEntropy.

(** [[0-9a-f]] *)
Definition isHexDigit (c : N) : bool :=
  ((48 <=? c) && (c <=? 57))%N || ((97 <=? c) && (c <=? 102))%N.

(** A computation none of whose events is a step of a submission. *)
Definition quiet {A} (c : M A) : Prop :=
  forall w, steps (events (c w)) = [].

(** ** Tactics *)

(** Run the first computation of a sequence with its equation [H]. *)
Ltac step_with H := unfold bind at 1; rewrite H; cbv beta iota.


(** ** Password strength *)

(** [/r/.test(s)], a pattern without anchors: some substring of [s] is in
    the language of [r]. *)
Definition regexSearch (r : Regex.regex) (s : jsstring) : bool :=
  Regex.matches
    (Regex.Seq (Regex.Star (Regex.Class (fun _ => true)))
       (Regex.Seq r (Regex.Star (Regex.Class (fun _ => true))))) s.

(** [[a-z]], [[A-Z]], [\d] and [[^a-zA-Z0-9]] *)
Definition lowerChar (c : N) : bool := ((97 <=? c) && (c <=? 122))%N.
Definition upperChar (c : N) : bool := ((65 <=? c) && (c <=? 90))%N.
Definition digitChar (c : N) : bool := ((48 <=? c) && (c <=? 57))%N.
Definition notAlnumChar (c : N) : bool :=
  negb (lowerChar c || upperChar c || digitChar c).

(** The local [strength] of [checkPasswordStrength] when it is compared. *)
Definition strengthScore (password : jsstring) : nat :=
  ((if (8 <=? length password)%nat then 1 else 0)
   + (if (12 <=? length password)%nat then 1 else 0)
   + (if regexSearch (Regex.Class lowerChar) password
         && regexSearch (Regex.Class upperChar) password then 1 else 0)
   + (if regexSearch (Regex.Class digitChar) password then 1 else 0)
   + (if regexSearch (Regex.Class notAlnumChar) password then 1 else 0))%nat.

Definition checkPasswordStrength (password : jsstring) : string :=
  if (strengthScore password <=? 2)%nat then "weak"
  else if (strengthScore password <=? 4)%nat then "medium"
  else "strong".

(** ** Validation while the user types *)

(** [id.toLowerCase()] of an ASCII id. *)
Definition lowerAscii (a : ascii) : ascii :=
  let n := nat_of_ascii a in
  if ((65 <=? n) && (n <=? 90))%nat then ascii_of_nat (n + 32) else a.

Fixpoint toLowerCase (s : string) : string :=
  match s with
  | EmptyString => EmptyString
  | String a s' => String (lowerAscii a) (toLowerCase s')
  end.

(** [s.includes(sub)] *)
Fixpoint includes (s sub : string) : bool :=
  if String.prefix sub s then true
  else match s with
       | EmptyString => false
       | String _ s' => includes s' sub
       end.

(** The validator the blur listener picks from the id of the input;
    [None] is the empty key, for which it does nothing. *)
Definition blurValidatorKey (id : string) : option ValidatorKey :=
  if includes (toLowerCase id) "confirmpassword" then Some confirmPassword
  else if includes (toLowerCase id) "name" && negb (includes (toLowerCase id) "username")
       then Some name
  else if includes (toLowerCase id) "username" then Some username
  else if includes (toLowerCase id) "email" then Some email
  else if includes (toLowerCase id) "password" then Some password
  else None.

(** The [blur] listener of an input. *)
Definition onBlur (input : Element) : M unit :=
  match blurValidatorKey (elId input) with
  | Some validatorKey => _ <- validateField input validatorKey ;; ret tt
  | None => ret tt
  end.

(** [inputGroup.classList.contains(c)] *)
Definition classListContains (g : nat) (c : string) : M bool :=
  w <- get ;;
  ret (bool_decide (c ∈ default ∅ (classList <$> groups (page w) !! g))).

(** The [input] listener of an input: it clears a shown error. *)
Definition onInput (input : Element) : M unit :=
  inputGroup <- closest input ;;
  match inputGroup with
  | None => throwTypeError "inputGroup is null"
  | Some g =>
      shown <- classListContains g "error" ;;
      if shown then
        classListRemove g "error" ;;;
        setErrorText g EmptyString
      else ret tt
  end.

(** The debounced [input] listener of the confirm-password input, once
    its delay has passed. The listener is registered only when the page
    has that input ([signUpConfirmPassword?.]); [signUpPassword] is read
    without such a guard. *)
Definition confirmPasswordLiveCheck : M unit :=
  confirm <- getElementById "signUpConfirmPassword" ;;
  match confirm with
  | None => ret tt
  | Some confirm =>
      pw <- getElementById "signUpPassword" ;;
      match pw with
      | None => throwTypeError "signUpPassword is null"
      | Some pw =>
          let confirmValue := elValue confirm in
          let passwordValue := elValue pw in
          if truthy confirmValue && truthy passwordValue
             && negb (bool_decide (confirmValue = passwordValue))
          then
            inputGroup <- closest confirm ;;
            match inputGroup with
            | None => throwTypeError "inputGroup is null"
            | Some g =>
                classListAdd g "error" ;;;
                setErrorText g "Passwords do not match"
            end
          else ret tt
      end
  end.

(** ** Remember me *)

(** [checkbox.checked = true] on the first element with the id. *)
Fixpoint checkFirst (id : string) (els : list Element) : list Element :=
  match els with
  | [] => []
  | e :: els' =>
      if bool_decide (elId e = id)
      then mkElement (elId e) (elForm e) (elValue e) true (elGroup e) :: els'
      else e :: checkFirst id els'
  end.

Definition loadRememberMe : M unit :=
  w <- get ;;
  let remembered := localStorage w !! "rememberMe" in
  if bool_decide (remembered = Some "true") then
    checkbox <- getElementById "rememberMe" ;;
    match checkbox with
    | Some _ =>
        modify (fun w =>
          set_page (set_elements (checkFirst "rememberMe" (elements (page w))) (page w)) w)
    | None => ret tt
    end
  else ret tt.

(** The state of the "remember me" box in a world, if the page has one. *)
Definition rememberMeChecked (w : World) : option bool :=
  elChecked <$> find (fun e => bool_decide (elId e = "rememberMe")) (elements (page w)).

(** ** Runs of a rate limiter *)

(** The readings at which a limiter accepts, when [canProceed] is called
    at each reading of the list in turn. *)
Fixpoint acceptedTimes (times : list Z) (rl : RateLimiter.t) : list Z :=
  match times with
  | [] => []
  | now :: rest =>
      if (RateLimiter.canProceed now rl).1
      then now :: acceptedTimes rest (RateLimiter.canProceed now rl).2
      else acceptedTimes rest (RateLimiter.canProceed now rl).2
  end.

(** The limiter after those calls. *)
Fixpoint afterCalls (times : list Z) (rl : RateLimiter.t) : RateLimiter.t :=
  match times with
  | [] => rl
  | now :: rest => afterCalls rest (RateLimiter.canProceed now rl).2
  end.

(** Each time of the list is at least [gap] after the one before it, the
    first at least [gap] after [prev]. *)
Fixpoint spacedFrom (gap prev : Z) (l : list Z) : Prop :=
  match l with
  | [] => True
  | t :: l' => gap <= t - prev /\ spacedFrom gap t l'
  end.

(** ** The rest of the page: theme, strength meter, password toggles

    What the script reaches through its other handles. Each handle may be
    [null] ([None]); using a [null] handle throws. *)

(** An element of class [password-toggle]: [tgInput] is the index, in the
    store of input types, of [toggle.parentElement.querySelector("input")],
    [tgIcon] the class name of [toggle.querySelector("i")]. Two toggles
    may name the same input. *)
Record Toggle : Type := mkToggle {
  tgInput : option nat;
  tgIcon : option string
}.

Record Ui : Type := mkUi {
  core : World;
  dataTheme : option string;              (* [data-theme] of the document element *)
  themeIcon : option string;              (* class name of [themeToggle.querySelector("i")] *)
  passwordStrength : option (gset string);(* class list of [#passwordStrength] *)
  strengthFill : option string;           (* class name of [#strengthFill] *)
  strengthText : option (string * string);(* class name and text of [#strengthText] *)
  inputTypes : list string;               (* [type] of the inputs beside the toggles *)
  passwordToggles : list Toggle
}.

Definition set_core (w : World) (u : Ui) : Ui :=
  mkUi w (dataTheme u) (themeIcon u) (passwordStrength u) (strengthFill u)
    (strengthText u) (inputTypes u) (passwordToggles u).

Definition set_dataTheme (t : option string) (u : Ui) : Ui :=
  mkUi (core u) t (themeIcon u) (passwordStrength u) (strengthFill u)
    (strengthText u) (inputTypes u) (passwordToggles u).

Definition set_themeIcon (c : option string) (u : Ui) : Ui :=
  mkUi (core u) (dataTheme u) c (passwordStrength u) (strengthFill u)
    (strengthText u) (inputTypes u) (passwordToggles u).

Definition set_passwordStrength (c : option (gset string)) (u : Ui) : Ui :=
  mkUi (core u) (dataTheme u) (themeIcon u) c (strengthFill u)
    (strengthText u) (inputTypes u) (passwordToggles u).

Definition set_strengthFill (c : option string) (u : Ui) : Ui :=
  mkUi (core u) (dataTheme u) (themeIcon u) (passwordStrength u) c
    (strengthText u) (inputTypes u) (passwordToggles u).

Definition set_strengthText (c : option (string * string)) (u : Ui) : Ui :=
  mkUi (core u) (dataTheme u) (themeIcon u) (passwordStrength u) (strengthFill u)
    c (inputTypes u) (passwordToggles u).

Definition set_inputTypes (l : list string) (u : Ui) : Ui :=
  mkUi (core u) (dataTheme u) (themeIcon u) (passwordStrength u) (strengthFill u)
    (strengthText u) l (passwordToggles u).

Definition set_passwordToggles (l : list Toggle) (u : Ui) : Ui :=
  mkUi (core u) (dataTheme u) (themeIcon u) (passwordStrength u) (strengthFill u)
    (strengthText u) (inputTypes u) l.

(** Computations on the whole page, as [M] on the world. *)
Definition U (A : Type) : Type := Ui -> Completion A * Ui * list Event.

Definition uret {A} (a : A) : U A := fun u => (Normal a, u, []).

Definition ubind {A B} (c : U A) (k : A -> U B) : U B :=
  fun u =>
    match c u with
    | (Normal a, u1, ev1) =>
        match k a u1 with
        | (r, u2, ev2) => (r, u2, ev1 ++ ev2)
        end
    | (Throw e, u1, ev1) => (Throw e, u1, ev1)
    end.

Definition uthrow {A} (what : string) : U A := fun u => (Throw what, u, []).

Definition uget : U Ui := fun u => (Normal u, u, []).

Definition umodify (f : Ui -> Ui) : U unit := fun u => (Normal tt, f u, []).

(** A computation on the world, run on the world of the page. *)
Definition liftM {A} (c : M A) : U A :=
  fun u =>
    match c (core u) with
    | (r, w, ev) => (r, set_core w u, ev)
    end.

Notation "x <~ c ;; k" := (ubind c (fun x => k))
  (at level 100, c at next level, right associativity).
Notation "c ;;~ k" := (ubind c (fun _ => k))
  (at level 100, right associativity).

(** The page a run leaves, how it ended, and what it did. *)
Definition ui {A} (r : Completion A * Ui * list Event) : Ui := r.1.2.

Definition ucompletion {A} (r : Completion A * Ui * list Event) : Completion A := r.1.1.

Definition uevents {A} (r : Completion A * Ui * list Event) : list Event := r.2.

(** *** Theme *)

Definition updateThemeIcon (theme : string) : U unit :=
  u <~ uget ;;
  match themeIcon u with
  | None => uthrow "icon is null"
  | Some _ =>
      umodify (set_themeIcon
                 (Some (if String.eqb theme "dark" then "fa-solid fa-sun"
                        else "fa-solid fa-moon")))
  end.

(** [localStorage.getItem("theme") || "light"] *)
Definition savedThemeOf (w : World) : string :=
  match localStorage w !! "theme" with
  | Some saved => if truthyText saved then saved else "light"
  | None => "light"
  end.

Definition initTheme : U unit :=
  u <~ uget ;;
  let savedTheme := savedThemeOf (core u) in
  umodify (set_dataTheme (Some savedTheme)) ;;~
  updateThemeIcon savedTheme.

Definition toggleTheme : U unit :=
  u <~ uget ;;
  let currentTheme := dataTheme u in
  let newTheme := if bool_decide (currentTheme = Some "dark") then "light" else "dark" in
  umodify (set_dataTheme (Some newTheme)) ;;~
  liftM (setItem "theme" newTheme) ;;~
  updateThemeIcon newTheme ;;~
  liftM (showToast ((if String.eqb newTheme "dark" then "Dark" else "Light")
                      +:+ " mode enabled") info).

(** *** Password strength meter *)

(** The object [labels] of [updatePasswordStrength]. *)
Definition strengthLabels : gmap string string :=
  {[ "weak" := "Weak password"; "medium" := "Medium strength";
     "strong" := "Strong password" ]}.

(** [updatePasswordStrength(password)]. The key looked up in [labels] is
    one of its three keys, so the text is never [undefined]. *)
Definition updatePasswordStrength (password : jsstring) : U unit :=
  u <~ uget ;;
  match passwordStrength u with
  | None => uthrow "passwordStrength is null"
  | Some classes =>
      if (length password =? 0)%nat then
        umodify (set_passwordStrength (Some (classes ∖ {["visible"]})))
      else
        umodify (set_passwordStrength (Some ({["visible"]} ∪ classes))) ;;~
        let strength := checkPasswordStrength password in
        u <~ uget ;;
        match strengthFill u with
        | None => uthrow "strengthFill is null"
        | Some _ =>
            umodify (set_strengthFill (Some ("strength-fill " +:+ strength))) ;;~
            u <~ uget ;;
            match strengthText u with
            | None => uthrow "strengthText is null"
            | Some (_, text) =>
                umodify (set_strengthText (Some ("strength-text " +:+ strength, text))) ;;~
                umodify (set_strengthText
                           (Some ("strength-text " +:+ strength,
                                  default EmptyString (strengthLabels !! strength))))
            end
        end
  end.

(** *** Password visibility *)

(** The [click] listener of the toggle of the given index. *)
Definition togglePasswordVisibility (i : nat) : U unit :=
  u <~ uget ;;
  match passwordToggles u !! i with
  | None => uret tt
  | Some toggle =>
      match tgInput toggle ≫= (fun j => pair j <$> inputTypes u !! j) with
      | None => uthrow "input is null"
      | Some (j, type) =>
          let showing := negb (String.eqb type "password") in
          umodify (fun u =>
            set_inputTypes (<[j := if showing then "password" else "text"]> (inputTypes u)) u) ;;~
          match tgIcon toggle with
          | None => uthrow "icon is null"
          | Some _ =>
              umodify (fun u =>
                set_passwordToggles
                  (alter (fun t => mkToggle (tgInput t)
                                     (Some (if showing then "fa-solid fa-eye"
                                            else "fa-solid fa-eye-slash")))
                     i (passwordToggles u)) u)
          end
      end
  end.

(** The type of the input beside a toggle. *)
Definition toggledType (u : Ui) (i : nat) : option string :=
  toggle ← passwordToggles u !! i; j ← tgInput toggle; inputTypes u !! j.

(** ** Debounce

    [debounce(func, wait)] returns a closure over the variable [timeout].
    The timers of the page are a table from timer ids to what is pending:
    the time from which the callback is due and its arguments. The
    environment runs a pending callback at some time from which it is due. *)

Module Debounce.

Section WithArgs.

Variable A : Type.

Record state : Type := mk {
  timeout : option nat;           (* the variable [timeout]; [None] is [undefined] *)
  timers : gmap nat (Z * A);      (* pending timers of this closure *)
  nextTimer : nat;                (* the id the next [setTimeout] returns *)
  invoked : list (Z * A)          (* the calls of [func]: when and with what *)
}.

(** The state in which [debounce] returns; [n] is the next timer id. *)
Definition init (n : nat) : state := mk None ∅ n [].

(** [clearTimeout(timeout)]: no effect for [undefined] or a timer that
    is not pending. *)
Definition clearTimeout (s : state) : gmap nat (Z * A) :=
  match timeout s with
  | Some id => delete id (timers s)
  | None => timers s
  end.

(** [executedFunction(...args)] at time [now]. *)
Definition executedFunction (wait : Z) (now : Z) (args : A) (s : state) : state :=
  mk (Some (nextTimer s))
     (<[nextTimer s := (now + wait, args)]> (clearTimeout s))
     (S (nextTimer s))
     (invoked s).

(** The environment runs the callback [later] of timer [id] at time
    [now], if that timer is pending and due. *)
Definition fire (id : nat) (now : Z) (s : state) : state :=
  match timers s !! id with
  | Some (due, args) =>
      if (due <=? now) then
        let s1 := mk (timeout s) (delete id (timers s)) (nextTimer s) (invoked s) in
        mk (timeout s1) (clearTimeout s1) (nextTimer s1) (invoked s1 ++ [(now, args)])
      else s
  | None => s
  end.

(** What happens to the closure: a call, or a timer firing. *)
Inductive action : Type :=
| Call (now : Z) (args : A)
| Fire (id : nat) (now : Z).

Definition step (wait : Z) (a : action) (s : state) : state :=
  match a with
  | Call now args => executedFunction wait now args s
  | Fire id now => fire id now s
  end.

Definition run (wait : Z) (acts : list action) (s : state) : state :=
  fold_left (fun s a => step wait a s) acts s.

(** The calls among the actions. *)
Definition calls (acts : list action) : list (Z * A) :=
  omap (fun a => match a with Call now args => Some (now, args) | Fire _ _ => None end) acts.

End WithArgs.

Arguments mk {A} _ _ _ _.
Arguments timeout {A} _.
Arguments timers {A} _.
Arguments nextTimer {A} _.
Arguments invoked {A} _.
Arguments init {A} _.
Arguments clearTimeout {A} _.
Arguments executedFunction {A} _ _ _ _.
Arguments fire {A} _ _ _.
Arguments Call {A} _ _.
Arguments Fire {A} _ _.
Arguments step {A} _ _ _.
Arguments run {A} _ _ _.
Arguments calls {A} _.

End Debounce.

(** A page with the theme button, the meter and three password toggles. *)
Definition exampleUi : Ui :=
  mkUi exampleWorld None (Some "fa-solid fa-moon")
    (Some {["password-strength"]}) (Some "strength-fill") (Some ("strength-text", EmptyString))
    ["password"; "password"; "password"]
    [ mkToggle (Some 0%nat) (Some "fa-solid fa-eye");
      mkToggle (Some 1%nat) (Some "fa-solid fa-eye");
      mkToggle (Some 2%nat) (Some "fa-solid fa-eye") ].

(** What holds of a debounced closure after the actions [acts]: at most
    one timer is pending, the one [timeout] names, for the last call and
    due [wait] after it; every call of [func] has the arguments of a call
    made at least [wait] before; and there are no more calls of [func],
    done or pending, than calls of the closure. *)
Definition debounceInv {A} (wait : Z) (acts : list (Debounce.action A))
    (s : Debounce.state A) : Prop :=
  (Debounce.timers s = ∅
   \/ exists id t a,
        Debounce.timeout s = Some id
        /\ Debounce.timers s = {[ id := (t + wait, a) ]}
        /\ last (Debounce.calls acts) = Some (t, a))
  /\ Forall (fun i => exists t0, (t0, i.2) ∈ Debounce.calls acts /\ t0 + wait <= i.1)
       (Debounce.invoked s)
  /\ (length (Debounce.invoked s) + size (Debounce.timers s)
      <= length (Debounce.calls acts))%nat.

(** A burst of calls, as actions. *)
Definition burstOf {A} (burst : list (Z * A)) : list (Debounce.action A) :=
  map (fun c => Debounce.Call c.1 c.2) burst.

(** * Properties *)

(** ** Strings *)

Lemma trimStart_nil_iff (s : jsstring) :
  trimStart s = [] <-> Forall (fun c => isWhiteSpace c = true) s.
Proof.
  induction s as [|c s IH]; simpl.
  - split; [constructor | reflexivity].
  - destruct (isWhiteSpace c) eqn:Hc.
    + rewrite IH. split; [intros H; constructor; assumption | intros H; inversion H; assumption].
    + split; [discriminate | intros H; inversion H; congruence].
Qed.

Lemma trimStart_suffix (s : jsstring) :
  exists pre, s = pre ++ trimStart s /\ Forall (fun c => isWhiteSpace c = true) pre.
Proof.
  induction s as [|c s [pre [Hs Hpre]]]; simpl.
  - exists []. split; [reflexivity | constructor].
  - destruct (isWhiteSpace c) eqn:Hc.
    + exists (c :: pre). split; [simpl; congruence | constructor; assumption].
    + exists []. split; [reflexivity | constructor].
Qed.

Lemma trimStart_head (s : jsstring) c t :
  trimStart s = c :: t -> isWhiteSpace c = false.
Proof.
  induction s as [|d s IH]; simpl; [discriminate|].
  destruct (isWhiteSpace d) eqn:Hd; [exact IH|].
  intros H. inversion H; subst. exact Hd.
Qed.

Lemma trimStart_id (s : jsstring) c t :
  s = c :: t -> isWhiteSpace c = false -> trimStart s = s.
Proof. intros -> H. simpl. rewrite H. reflexivity. Qed.

Lemma trimEnd_nil_iff (s : jsstring) :
  trimEnd s = [] <-> Forall (fun c => isWhiteSpace c = true) s.
Proof.
  unfold trimEnd. split.
  - intros H. apply (f_equal (@rev N)) in H. rewrite rev_involutive in H. simpl in H.
    apply trimStart_nil_iff in H. apply Forall_rev in H.
    rewrite rev_involutive in H. exact H.
  - intros H. apply Forall_rev in H. apply trimStart_nil_iff in H.
    rewrite H. reflexivity.
Qed.

Lemma trim_nil_iff (s : jsstring) :
  trim s = [] <-> Forall (fun c => isWhiteSpace c = true) s.
Proof.
  unfold trim. rewrite trimEnd_nil_iff. split.
  - intros H. destruct (trimStart s) as [|c t] eqn:E.
    + apply trimStart_nil_iff. exact E.
    + apply trimStart_head in E. inversion H; congruence.
  - intros H. apply trimStart_nil_iff in H. rewrite H. constructor.
Qed.

Lemma trimStart_incl (s : jsstring) c : In c (trimStart s) -> In c s.
Proof.
  destruct (trimStart_suffix s) as [pre [Hs _]]. intros H.
  rewrite Hs. apply in_or_app. right. exact H.
Qed.

Lemma trim_incl (s : jsstring) c : In c (trim s) -> In c s.
Proof.
  unfold trim, trimEnd. intros H. apply in_rev in H.
  apply trimStart_incl in H. apply in_rev in H.
  apply trimStart_incl in H. exact H.
Qed.

Lemma trimStart_length (s : jsstring) : (length (trimStart s) <= length s)%nat.
Proof.
  destruct (trimStart_suffix s) as [pre [Hs _]].
  rewrite Hs at 2. rewrite length_app. lia.
Qed.

Lemma trim_length (s : jsstring) : (length (trim s) <= length s)%nat.
Proof.
  unfold trim, trimEnd. rewrite length_rev.
  etransitivity; [apply trimStart_length|].
  rewrite length_rev. apply trimStart_length.
Qed.

(** A string without white space is its own trim. *)
Lemma trim_id (s : jsstring) :
  Forall (fun c => isWhiteSpace c = false) s -> trim s = s.
Proof.
  intros H. unfold trim, trimEnd.
  assert (Hst : forall t : jsstring,
             Forall (fun c => isWhiteSpace c = false) t -> trimStart t = t).
  { intros [|c t] Ht; [reflexivity|]. inversion Ht; subst.
    simpl. rewrite H2. reflexivity. }
  rewrite (Hst s H). rewrite Hst.
  - apply rev_involutive.
  - apply Forall_rev. exact H.
Qed.

(** ** Regular expressions: the matcher decides the language *)

Module RegexFacts.
Import Regex.

Lemma nullable_Lang (r : regex) : nullable r = true <-> Lang r [].
Proof.
  induction r as [| |p|r1 IH1 r2 IH2|r1 IH1 r2 IH2|r IH]; simpl.
  - split; [discriminate | intros H; inversion H].
  - split; [constructor | reflexivity].
  - split; [discriminate | intros H; inversion H].
  - rewrite andb_true_iff, IH1, IH2. split.
    + intros [H1 H2]. change (@nil N) with (@nil N ++ []). constructor; assumption.
    + intros H. inversion H; subst.
      match goal with E : _ ++ _ = [] |- _ => apply app_eq_nil in E as [-> ->] end.
      split; assumption.
  - rewrite orb_true_iff, IH1, IH2. split.
    + intros [H|H]; [apply LAltL | apply LAltR]; assumption.
    + intros H. inversion H; subst; [left | right]; assumption.
  - split; [constructor | reflexivity].
Qed.

Lemma deriv_sound (c : N) (r : regex) :
  forall s, Lang (deriv c r) s -> Lang r (c :: s).
Proof.
  induction r as [| |p|r1 IH1 r2 IH2|r1 IH1 r2 IH2|r IH]; simpl; intros s H.
  - inversion H.
  - inversion H.
  - destruct (p c) eqn:Hp; inversion H; subst. constructor. exact Hp.
  - destruct (nullable r1) eqn:Hn.
    + inversion H as [| | |? ? ? H1| ? ? ? H1| |]; subst.
      * inversion H1; subst. change (c :: s1 ++ s2) with ((c :: s1) ++ s2).
        constructor; [apply IH1|]; assumption.
      * change (c :: s) with ([] ++ c :: s).
        constructor; [apply nullable_Lang; exact Hn | apply IH2; exact H1].
    + inversion H; subst. change (c :: s1 ++ s2) with ((c :: s1) ++ s2).
      constructor; [apply IH1|]; assumption.
  - inversion H; subst; [apply LAltL, IH1 | apply LAltR, IH2]; assumption.
  - inversion H; subst. change (c :: s1 ++ s2) with ((c :: s1) ++ s2).
    constructor; [apply IH|]; assumption.
Qed.

Lemma deriv_complete (c : N) (r : regex) (t : jsstring) :
  Lang r t -> forall s, t = c :: s -> Lang (deriv c r) s.
Proof.
  induction 1 as [|p d Hp|r1 r2 s1 s2 H1 IH1 H2 IH2|r1 r2 u H1 IH1|r1 r2 u H1 IH1
                 |r|r s1 s2 H1 IH1 H2 IH2]; intros s E; simpl.
  - discriminate.
  - inversion E; subst. rewrite Hp. constructor.
  - destruct s1 as [|d s1].
    + simpl in E. apply nullable_Lang in H1. rewrite H1.
      apply LAltR. apply IH2. exact E.
    + simpl in E. inversion E; subst.
      assert (Hd : Lang (Seq (deriv c r1) r2) (s1 ++ s2))
        by (constructor; [apply IH1; reflexivity | exact H2]).
      destruct (nullable r1); [apply LAltL|]; exact Hd.
  - apply LAltL. apply IH1. exact E.
  - apply LAltR. apply IH1. exact E.
  - discriminate.
  - destruct s1 as [|d s1].
    + simpl in E. apply (IH2 s E).
    + simpl in E. inversion E; subst.
      constructor; [apply IH1; reflexivity | exact H2].
Qed.

Lemma matches_Lang (s : jsstring) :
  forall r, matches r s = true <-> Lang r s.
Proof.
  induction s as [|c s IH]; intros r; simpl.
  - apply nullable_Lang.
  - rewrite IH. split.
    + apply deriv_sound.
    + intros H. apply (deriv_complete c r (c :: s) H). reflexivity.
Qed.

Lemma Lang_Class (p : N -> bool) (s : jsstring) :
  Lang (Class p) s <-> exists c, s = [c] /\ p c = true.
Proof.
  split.
  - intros H. inversion H; subst. eauto.
  - intros [c [-> Hp]]. constructor. exact Hp.
Qed.

Lemma Lang_Seq (r1 r2 : regex) (s : jsstring) :
  Lang (Seq r1 r2) s <-> exists s1 s2, s = s1 ++ s2 /\ Lang r1 s1 /\ Lang r2 s2.
Proof.
  split.
  - intros H. inversion H; subst. eauto.
  - intros [s1 [s2 [-> [H1 H2]]]]. constructor; assumption.
Qed.

Lemma Lang_Star_Class (p : N -> bool) (s : jsstring) :
  Lang (Star (Class p)) s <-> Forall (fun c => p c = true) s.
Proof.
  split.
  - intros H. remember (Star (Class p)) as r eqn:Er.
    induction H as [| | | | | |r s1 s2 H1 _ H2 IH2]; try discriminate.
    + constructor.
    + inversion Er; subst. inversion H1; subst. simpl.
      constructor; [assumption | apply IH2; reflexivity].
  - induction 1 as [|c s Hc _ IH].
    + constructor.
    + change (c :: s) with ([c] ++ s). constructor; [constructor|]; assumption.
Qed.

Lemma Lang_Plus_Class (p : N -> bool) (s : jsstring) :
  Lang (Plus (Class p)) s <-> s <> [] /\ Forall (fun c => p c = true) s.
Proof.
  unfold Plus. rewrite Lang_Seq. split.
  - intros [s1 [s2 [-> [H1 H2]]]]. apply Lang_Class in H1 as [c [-> Hc]].
    apply Lang_Star_Class in H2. simpl. split; [discriminate | constructor; assumption].
  - intros [Hne H]. destruct s as [|c s]; [congruence|]. inversion H; subst.
    exists [c], s. split; [reflexivity|]. split.
    + constructor. assumption.
    + apply Lang_Star_Class. assumption.
Qed.

End RegexFacts.

(** ** The validators *)

(** A validator passes when its message is the empty one. *)
Lemma test_usernameRegex (value : jsstring) :
  Regex.test usernameRegex value = true <->
  value <> [] /\ Forall (fun c => wordChar c = true) value.
Proof.
  unfold Regex.test, usernameRegex.
  rewrite RegexFacts.matches_Lang. apply RegexFacts.Lang_Plus_Class.
Qed.

Lemma wordChar_not_space (c : N) : wordChar c = true -> isWhiteSpace c = false.
Proof.
  unfold wordChar, isWhiteSpace. intros H.
  repeat (apply orb_true_iff in H as [H|H]);
    repeat (apply andb_true_iff in H as [? ?]);
    repeat match goal with
      | H : (_ <=? _)%N = true |- _ => apply N.leb_le in H
      | H : (_ =? _)%N = true |- _ => apply N.eqb_eq in H
      end;
    repeat (apply orb_false_iff; split);
    try (apply andb_false_iff);
    try (apply N.eqb_neq; lia);
    try (left; apply N.leb_gt; lia);
    try (right; apply N.leb_gt; lia).
Qed.

Lemma validators_username_passes (value : jsstring) :
  validators_username value = EmptyString <->
  (3 <= length (trim value))%nat /\ Forall (fun c => wordChar c = true) value.
Proof.
  unfold validators_username.
  destruct (trim value) as [|c t] eqn:Etrim; simpl truthy; cbv iota.
  - simpl. split; [discriminate | intros [H _]; simpl in H; lia].
  - simpl negb. cbv iota.
    destruct (Nat.ltb_spec (length (c :: t)) 3) as [Hlt|Hge].
    + split; [discriminate | intros [H _]; lia].
    + destruct (Regex.test usernameRegex value) eqn:Et; simpl.
      * apply test_usernameRegex in Et as [_ Hall]. split; [auto | reflexivity].
      * split; [discriminate|]. intros [_ Hall].
        assert (Hne : value <> []) by (intros ->; discriminate).
        assert (Ht : Regex.test usernameRegex value = true)
          by (apply test_usernameRegex; auto).
        congruence.
Qed.

Lemma notSpaceNorAt_plainChar (c : N) : notSpaceNorAt c = true <-> plainChar c.
Proof.
  unfold notSpaceNorAt, plainChar.
  rewrite negb_true_iff, orb_false_iff, N.eqb_neq. reflexivity.
Qed.

Lemma Forall_notSpaceNorAt (s : jsstring) :
  Forall (fun c => notSpaceNorAt c = true) s <-> Forall plainChar s.
Proof. apply Forall_iff. intros c. apply notSpaceNorAt_plainChar. Qed.

Lemma Lang_Lit (c : N) (s : jsstring) : Regex.Lang (Regex.Lit c) s <-> s = [c].
Proof.
  unfold Regex.Lit. rewrite RegexFacts.Lang_Class. split.
  - intros [d [-> Hd]]. apply N.eqb_eq in Hd. subst. reflexivity.
  - intros ->. exists c. split; [reflexivity | apply N.eqb_refl].
Qed.

Lemma test_emailRegex (value : jsstring) :
  Regex.test emailRegex value = true <-> emailShape value.
Proof.
  unfold Regex.test, emailRegex, emailShape.
  rewrite RegexFacts.matches_Lang. split.
  - intros H.
    apply RegexFacts.Lang_Seq in H as [s1 [r1 [-> [H1 H]]]].
    apply RegexFacts.Lang_Seq in H as [a [r2 [-> [Ha H]]]].
    apply RegexFacts.Lang_Seq in H as [s2 [r3 [-> [H2 H]]]].
    apply RegexFacts.Lang_Seq in H as [d [s3 [-> [Hd H3]]]].
    apply Lang_Lit in Ha, Hd. subst a d.
    apply RegexFacts.Lang_Plus_Class in H1 as [N1 F1], H2 as [N2 F2], H3 as [N3 F3].
    exists s1, s2, s3. rewrite <- !Forall_notSpaceNorAt. auto 10.
  - intros [s1 [s2 [s3 [-> [N1 [N2 [N3 [F1 [F2 F3]]]]]]]]].
    rewrite <- Forall_notSpaceNorAt in F1, F2, F3.
    repeat (apply Regex.LSeq);
      try (apply RegexFacts.Lang_Plus_Class; auto);
      apply Lang_Lit; reflexivity.
Qed.

Lemma emailShape_not_blank (value : jsstring) : emailShape value -> trim value <> [].
Proof.
  intros [s1 [s2 [s3 [-> [N1 [_ [_ [F1 _]]]]]]]] H.
  apply trim_nil_iff in H. destruct s1 as [|c s1]; [congruence|].
  inversion H; subst. inversion F1; subst.
  unfold plainChar in *. intuition congruence.
Qed.

Lemma validators_email_passes (value : jsstring) :
  validators_email value = EmptyString <-> emailShape value.
Proof.
  unfold validators_email.
  destruct (trim value) as [|c t] eqn:Etrim; simpl truthy; simpl negb; cbv iota.
  - split; [discriminate|]. intros H. apply emailShape_not_blank in H. congruence.
  - destruct (Regex.test emailRegex value) eqn:Et; simpl.
    + apply test_emailRegex in Et. split; auto.
    + split; [discriminate|]. intros H. apply test_emailRegex in H. congruence.
Qed.

(** C2 (as amended): the username validator passes exactly when the
    trimmed value has at least 3 code units and every code unit of the
    value as typed, untrimmed, is in [[A-Za-z0-9_]]. In particular it
    fails on a value that is empty after trimming, on one whose trimmed
    length is below 3, and on one with any code unit outside the class. *)
Theorem username_passes_iff (value : jsstring) :
  (validators_username value = EmptyString <->
     (3 <= length (trim value))%nat /\ Forall (fun c => wordChar c = true) value)
  /\ (trim value = [] -> validators_username value <> EmptyString)
  /\ ((length (trim value) < 3)%nat -> validators_username value <> EmptyString)
  /\ ((exists c, In c value /\ wordChar c = false) ->
      validators_username value <> EmptyString).
Proof.
  pose proof (validators_username_passes value) as Hiff.
  split; [exact Hiff|]. repeat split.
  - intros E Hp. apply Hiff in Hp as [Hlen _]. rewrite E in Hlen. simpl in Hlen. lia.
  - intros Hlt Hp. apply Hiff in Hp as [Hlen _]. lia.
  - intros [c [Hin Hc]] Hp. apply Hiff in Hp as [_ Hall].
    rewrite List.Forall_forall in Hall. specialize (Hall c Hin). congruence.
Qed.

(** C2, as it was stated, fails: [" abc"] trims to ["abc"], three code
    units all in the class, and the validator still rejects it. *)
Lemma username_leading_space_rejected :
  validators_username (js " abc") = "Only letters, numbers, and underscores"
  /\ trim (js " abc") = js "abc"
  /\ (3 <= length (trim (js " abc")))%nat
  /\ Forall (fun c => wordChar c = true) (trim (js " abc")).
Proof.
  split; [reflexivity|]. split; [reflexivity|]. split; [vm_compute; lia|].
  vm_compute. repeat constructor.
Qed.

(** A value the username validator passes has no white space, so it is
    its own trim: the trimmed length is the length. *)
Lemma username_passes_raw_length (value : jsstring) :
  validators_username value = EmptyString <->
  (3 <= length value)%nat /\ Forall (fun c => wordChar c = true) value.
Proof.
  rewrite validators_username_passes. split; intros [Hlen Hall]; split; auto.
  - pose proof (trim_length value). lia.
  - rewrite trim_id; [exact Hlen|].
    eapply List.Forall_impl; [|exact Hall]. intros c. apply wordChar_not_space.
Qed.

(** C6: the e-mail validator passes exactly on the values of the shape
    "plain characters, [@], plain characters, [.], plain characters"
    (plain: neither white space nor [@]; each run non-empty), so it fails
    on every other value; it fails on the empty value, rejects ["a@b"]
    and ["ab.com"] and accepts ["a@b.co"]. *)
Theorem email_shape_check :
  (forall value, validators_email value = EmptyString <-> emailShape value)
  /\ (forall value, ~ emailShape value -> validators_email value <> EmptyString)
  /\ validators_email [] = "Email is required"
  /\ validators_email (js "a@b") = "Please enter a valid email"
  /\ validators_email (js "ab.com") = "Please enter a valid email"
  /\ validators_email (js "a@b.co") = EmptyString.
Proof.
  split; [exact validators_email_passes|]. split.
  - intros value Hn Hp. apply Hn. apply validators_email_passes. exact Hp.
  - repeat split; reflexivity.
Qed.

(** ** Rate limiter *)

Lemma canProceed_accepts_iff (now : Z) (rl : RateLimiter.t) :
  (RateLimiter.canProceed now rl).1 = true <->
  RateLimiter.intervalMs rl <= now - RateLimiter.lastCall rl.
Proof.
  unfold RateLimiter.canProceed.
  destruct (Z.leb_spec (RateLimiter.intervalMs rl) (now - RateLimiter.lastCall rl));
    simpl; split; auto; try discriminate; lia.
Qed.

Lemma canProceed_accepted_state (now : Z) (rl : RateLimiter.t) :
  (RateLimiter.canProceed now rl).1 = true ->
  (RateLimiter.canProceed now rl).2 =
    RateLimiter.mk (RateLimiter.intervalMs rl) now false.
Proof.
  unfold RateLimiter.canProceed.
  destruct (RateLimiter.intervalMs rl <=? now - RateLimiter.lastCall rl);
    simpl; [reflexivity | discriminate].
Qed.

Lemma canProceed_rejected_state (now : Z) (rl : RateLimiter.t) :
  (RateLimiter.canProceed now rl).1 = false ->
  (RateLimiter.canProceed now rl).2 =
    RateLimiter.mk (RateLimiter.intervalMs rl) (RateLimiter.lastCall rl) true.
Proof.
  unfold RateLimiter.canProceed.
  destruct (RateLimiter.intervalMs rl <=? now - RateLimiter.lastCall rl);
    simpl; [discriminate | reflexivity].
Qed.

(** C3: with a cooldown of 2000 ms, [canProceed] returns true, and records
    the reading of the clock as the last accepted time, exactly when at
    least 2000 ms have passed since the last accepted time (a rejected
    call keeps the last accepted time); after an
    accepted call at [now], a call at a time in [[now, now + 2000)] is
    rejected and the remaining time there is positive and at most 2000,
    also after such rejected calls; from [now + 2000] on the next call is
    accepted; and [getRemainingTime] is [max(0, cooldown - elapsed)]. *)
Theorem rate_limiter_cooldown (rl : RateLimiter.t) (now : Z) :
  RateLimiter.intervalMs rl = 2000 ->
  let r := RateLimiter.canProceed now rl in
  (r.1 = true <-> 2000 <= now - RateLimiter.lastCall rl)
  /\ (r.1 = true -> RateLimiter.lastCall r.2 = now)
  /\ (r.1 = false -> RateLimiter.lastCall r.2 = RateLimiter.lastCall rl)
  /\ (forall t, RateLimiter.getRemainingTime t rl
                = Z.max 0 (2000 - (t - RateLimiter.lastCall rl)))
  /\ (r.1 = true -> forall t1, now <= t1 < now + 2000 ->
        (RateLimiter.canProceed t1 r.2).1 = false
        /\ 0 < RateLimiter.getRemainingTime t1 r.2 <= 2000
        /\ 0 < RateLimiter.getRemainingTime t1 (RateLimiter.canProceed t1 r.2).2 <= 2000)
  /\ (r.1 = true -> forall t1 t2, now <= t1 < now + 2000 -> now + 2000 <= t2 ->
        (RateLimiter.canProceed t2 r.2).1 = true
        /\ (RateLimiter.canProceed t2 (RateLimiter.canProceed t1 r.2).2).1 = true).
Proof.
  intros H2000 r. subst r.
  split; [rewrite canProceed_accepts_iff, H2000; reflexivity|].
  split; [intros Hacc; rewrite (canProceed_accepted_state _ _ Hacc); reflexivity|].
  split; [intros Hrej; rewrite (canProceed_rejected_state _ _ Hrej); reflexivity|].
  split; [intros t; unfold RateLimiter.getRemainingTime; rewrite H2000; reflexivity|].
  split.
  - intros Hacc t1 Ht1. rewrite (canProceed_accepted_state _ _ Hacc).
    assert (Hrej : (RateLimiter.canProceed t1
                      (RateLimiter.mk (RateLimiter.intervalMs rl) now false)).1 = false).
    { apply not_true_iff_false. rewrite canProceed_accepts_iff. simpl. lia. }
    split; [exact Hrej|]. rewrite (canProceed_rejected_state _ _ Hrej).
    unfold RateLimiter.getRemainingTime. simpl. lia.
  - intros Hacc t1 t2 Ht1 Ht2. rewrite (canProceed_accepted_state _ _ Hacc).
    assert (Hrej : (RateLimiter.canProceed t1
                      (RateLimiter.mk (RateLimiter.intervalMs rl) now false)).1 = false).
    { apply not_true_iff_false. rewrite canProceed_accepts_iff. simpl. lia. }
    rewrite (canProceed_rejected_state _ _ Hrej).
    rewrite !canProceed_accepts_iff. simpl. lia.
Qed.

(** C3 at the limiter of a form, first used at 1700000000000 ms: accepted;
    500 ms later rejected with 1500 ms left; 2000 ms later accepted. *)
Lemma rate_limiter_cooldown_witness :
  let rl := RateLimiter.createRateLimiter (Some 2000) in
  let r := RateLimiter.canProceed 1700000000000 rl in
  r.1 = true
  /\ RateLimiter.lastCall r.2 = 1700000000000
  /\ (RateLimiter.canProceed 1700000000500 r.2).1 = false
  /\ 0 < RateLimiter.getRemainingTime 1700000000500 r.2 <= 2000
  /\ (RateLimiter.canProceed 1700000002000 r.2).1 = true.
Proof.
  intros rl r.
  destruct (rate_limiter_cooldown rl 1700000000000 eq_refl) as [Ha [Hb [_ [_ [Hc Hd]]]]].
  assert (Hacc : r.1 = true) by (apply Ha; vm_compute; discriminate).
  split; [exact Hacc|]. split; [exact (Hb Hacc)|].
  destruct (Hc Hacc 1700000000500 ltac:(lia)) as [Hrej [Hrem _]].
  split; [exact Hrej|]. split; [exact Hrem|].
  exact (proj1 (Hd Hacc 1700000000500 1700000002000 ltac:(lia) ltac:(lia))).
Defined.

(** C4 (as amended): a rejected [canProceed] leaves [lastCall] and the
    cooldown as they were, so it neither resets nor extends the cooldown:
    the remaining time and the outcome of every later call are what they
    would have been without it. The one component it changes is the flag
    [isLimited], which it sets. *)
Theorem rejected_attempt_keeps_cooldown (rl : RateLimiter.t) (now : Z) :
  (RateLimiter.canProceed now rl).1 = false ->
  let rl' := (RateLimiter.canProceed now rl).2 in
  RateLimiter.lastCall rl' = RateLimiter.lastCall rl
  /\ RateLimiter.intervalMs rl' = RateLimiter.intervalMs rl
  /\ RateLimiter.isLimited rl' = true
  /\ (forall t, RateLimiter.getRemainingTime t rl' = RateLimiter.getRemainingTime t rl)
  /\ (forall t, RateLimiter.canProceed t rl' = RateLimiter.canProceed t rl).
Proof.
  intros Hrej rl'. subst rl'. rewrite (canProceed_rejected_state _ _ Hrej).
  repeat split; reflexivity.
Qed.

Lemma rejected_attempt_keeps_cooldown_witness :
  let rl := RateLimiter.mk 2000 1700000000000 false in
  let rl' := (RateLimiter.canProceed 1700000000500 rl).2 in
  RateLimiter.lastCall rl' = 1700000000000
  /\ RateLimiter.isLimited rl' = true
  /\ RateLimiter.getRemainingTime 1700000001000 rl' = 1000.
Proof.
  intros rl rl'.
  destruct (rejected_attempt_keeps_cooldown rl 1700000000500 eq_refl)
    as [Hlast [_ [Hflag [Hrem _]]]].
  split; [exact Hlast|]. split; [exact Hflag|].
  exact (eq_trans (Hrem 1700000001000) eq_refl).
Defined.

(** C4, as it was stated, fails: the rejected call turns [isLimited] from
    false to true, so the state is not the one before the call. *)
Lemma rejected_attempt_sets_isLimited :
  (RateLimiter.canProceed 1700000000500 (RateLimiter.mk 2000 1700000000000 false)).1 = false
  /\ RateLimiter.isCurrentlyLimited (RateLimiter.mk 2000 1700000000000 false) = false
  /\ RateLimiter.isCurrentlyLimited
       (RateLimiter.canProceed 1700000000500 (RateLimiter.mk 2000 1700000000000 false)).2 = true
  /\ (RateLimiter.canProceed 1700000000500 (RateLimiter.mk 2000 1700000000000 false)).2
     <> RateLimiter.mk 2000 1700000000000 false.
Proof. repeat split; try reflexivity. discriminate. Qed.

(** ** The validators as computations *)

Lemma find_editFirst (id : string) (text : jsstring) (els : list Element) :
  is_Some (find (fun e => bool_decide (elId e = id)) els) ->
  elValue <$> find (fun e => bool_decide (elId e = id)) (editFirst id text els) = Some text.
Proof.
  induction els as [|e els IH]; simpl.
  - intros [x Hx]. discriminate.
  - destruct (bool_decide (elId e = id)) eqn:He; simpl.
    + intros _. rewrite He. reflexivity.
    + intros H. rewrite He. apply IH. exact H.
Qed.

Lemma passwordFieldValue_typeInto (text : jsstring) (w : World) :
  is_Some (passwordFieldValue w) ->
  passwordFieldValue (typeInto "signUpPassword" text w) = Some text.
Proof.
  unfold passwordFieldValue, typeInto. simpl. intros H.
  apply find_editFirst. destruct H as [x Hx].
  destruct (find _ (elements (page w))); [eauto | discriminate].
Qed.

Lemma validators_confirmPassword_run (value : jsstring) (w : World) :
  validators_confirmPassword value w =
  (Normal (if negb (truthy value) then "Please confirm your password"
           else if negb (bool_decide (Some value = passwordFieldValue w))
                then "Passwords do not match" else EmptyString), w, []).
Proof.
  unfold validators_confirmPassword, passwordFieldValue.
  destruct (truthy value); simpl; [|reflexivity].
  unfold bind, getElementById, get, ret. simpl.
  destruct (bool_decide _); reflexivity.
Qed.

Lemma validators_run (key : ValidatorKey) (value : jsstring) (w : World) :
  validators key value w = (Normal (validatorMessage key value w), w, []).
Proof.
  destruct key; try reflexivity. apply validators_confirmPassword_run.
Qed.

(** C5: with the password field holding [p], the confirm-password
    validator passes exactly when its input is non-empty and equal to [p],
    the value the field has at that moment; after the field is edited to
    a different value, the same confirm value fails with "Passwords do not
    match". *)
Theorem confirmPassword_reads_live_value (value p : jsstring) (w : World) :
  passwordFieldValue w = Some p ->
  (exists msg, validators confirmPassword value w = (Normal msg, w, [])
               /\ (msg = EmptyString <-> value <> [] /\ value = p))
  /\ (forall p', value <> [] -> p' <> value ->
        completion (validators confirmPassword value (typeInto "signUpPassword" p' w))
        = Normal "Passwords do not match").
Proof.
  intros Hp. split.
  - eexists. split; [apply validators_run|]. simpl. rewrite Hp.
    destruct value as [|c v]; simpl.
    + split; [discriminate | intros [H _]; congruence].
    + destruct (bool_decide_reflect (Some (c :: v) = Some p)) as [E|E]; simpl.
      * inversion E; subst. split; [intros _; split; [discriminate | reflexivity] | reflexivity].
      * split; [discriminate | intros [_ H]; congruence].
  - intros p' Hne Hdiff. rewrite validators_run. simpl.
    rewrite passwordFieldValue_typeInto by (rewrite Hp; eauto).
    destruct value as [|c v]; [congruence|]. simpl.
    destruct (bool_decide_reflect (Some (c :: v) = Some p')) as [E|E]; simpl.
    + inversion E; congruence.
    + reflexivity.
Qed.

(** C5 on the example page, where the password field holds "secret1". *)
Lemma confirmPassword_reads_live_value_witness :
  (exists msg, validators confirmPassword (js "secret1") exampleWorld
               = (Normal msg, exampleWorld, [])
               /\ (msg = EmptyString <-> js "secret1" <> [] /\ js "secret1" = js "secret1"))
  /\ (forall p', js "secret1" <> [] -> p' <> js "secret1" ->
        completion (validators confirmPassword (js "secret1")
                      (typeInto "signUpPassword" p' exampleWorld))
        = Normal "Passwords do not match").
Proof.
  apply (confirmPassword_reads_live_value (js "secret1") (js "secret1") exampleWorld).
  vm_compute. reflexivity.
Defined.

(** The confirm value that passed fails once the password is edited. *)
Example confirmPassword_after_edit :
  completion (validators confirmPassword (js "secret1") exampleWorld) = Normal EmptyString
  /\ completion (validators confirmPassword (js "secret1")
                   (typeInto "signUpPassword" (js "secret2") exampleWorld))
     = Normal "Passwords do not match".
Proof. split; vm_compute; reflexivity. Qed.

(** C9: a validator call leaves the world as it found it and causes no
    event, and a second call with the same input in that world answers
    the same; the four validators other than [confirmPassword] answer the
    same in every world, and [confirmPassword] in every world with the
    same password-field value. *)
Theorem validators_deterministic (key : ValidatorKey) (value : jsstring) (w : World) :
  exists msg,
    validators key value w = (Normal msg, w, [])
    /\ (m1 <- validators key value ;; m2 <- validators key value ;; ret (m1, m2)) w
       = (Normal (msg, msg), w, [])
    /\ (forall w', passwordFieldValue w' = passwordFieldValue w ->
          validators key value w' = (Normal msg, w', []))
    /\ (key <> confirmPassword ->
        forall w', validators key value w' = (Normal msg, w', [])).
Proof.
  exists (validatorMessage key value w). split; [apply validators_run|]. split.
  - unfold bind. rewrite !validators_run. reflexivity.
  - split.
    + intros w' Hw'. rewrite validators_run.
      destruct key; simpl; try reflexivity. rewrite Hw'. reflexivity.
    + intros Hkey w'. rewrite validators_run. destruct key; try reflexivity. congruence.
Qed.

(** ** The form gate *)

Lemma withGroups_groups (gs : list InputGroup) (w : World) :
  groups (page (withGroups gs w)) = gs.
Proof. reflexivity. Qed.

Lemma withGroups_withGroups (gs gs' : list InputGroup) (w : World) :
  withGroups gs (withGroups gs' w) = withGroups gs w.
Proof. reflexivity. Qed.

Lemma updateGroup_run (g : nat) (f : InputGroup -> InputGroup) (w : World) :
  updateGroup g f w = (Normal tt, withGroups (alter f g (groups (page w))) w, []).
Proof. reflexivity. Qed.

Lemma setErrorText_run (g : nat) (text : string) (w : World) grp t :
  groups (page w) !! g = Some grp ->
  errorMessage grp = Some t ->
  setErrorText g text w =
  (Normal tt,
   withGroups (alter (fun grp => mkInputGroup (classList grp) (Some text)) g
                 (groups (page w))) w, []).
Proof.
  intros Hgrp Ht. unfold setErrorText, bind, get. cbv beta iota.
  rewrite Hgrp. simpl. rewrite Ht. reflexivity.
Qed.

Lemma closest_run (e : Element) (w : World) g grp :
  elGroup e = Some g ->
  groups (page w) !! g = Some grp ->
  closest e w = (Normal (Some g), w, []).
Proof.
  intros Hg Hgrp. unfold closest, bind, get, ret. rewrite Hg. simpl.
  rewrite Hgrp. reflexivity.
Qed.

Lemma validateField_run (e : Element) (k : ValidatorKey) (w : World) g grp :
  elGroup e = Some g ->
  groups (page w) !! g = Some grp ->
  is_Some (errorMessage grp) ->
  validateField e k w =
  (Normal (negb (truthyText (validatorMessage k (elValue e) w))),
   withGroups (alter (markGroup (validatorMessage k (elValue e) w) (elValue e)) g
                 (groups (page w))) w,
   [EvValidator k (elValue e) (validatorMessage k (elValue e) w)]).
Proof.
  intros Hg Hgrp [t Ht].
  unfold validateField.
  step_with (closest_run e w g grp Hg Hgrp).
  step_with validators_run.
  set (msg := validatorMessage k (elValue e) w).
  unfold bind at 1, emit. unfold markGroup.
  destruct (truthyText msg); simpl negb.
  - unfold classListRemove, classListAdd.
    step_with updateGroup_run. step_with updateGroup_run.
    unfold bind at 1.
    erewrite setErrorText_run;
      [| repeat (rewrite withGroups_groups || rewrite list_lookup_alter_eq);
         rewrite Hgrp; reflexivity
       | exact Ht].
    simpl. rewrite !list_alter_alter_eq. reflexivity.
  - unfold classListRemove, classListAdd.
    step_with updateGroup_run.
    unfold bind at 1.
    erewrite setErrorText_run;
      [| repeat (rewrite withGroups_groups || rewrite list_lookup_alter_eq);
         rewrite Hgrp; reflexivity
       | exact Ht].
    cbv beta iota.
    destruct (truthy (trim (elValue e))); step_with updateGroup_run;
      simpl; rewrite !list_alter_alter_eq; reflexivity.
Qed.















(** *** Writes of the form gate stay within the input groups *)















(** The scenario of the specification: all five validators run, in the
    order of the list, and the form is valid. *)
Example validateForm_signUp_scenario :
  completion (validateForm SignUpForm signUpFields exampleWorld) = Normal true
  /\ validatorCalls (events (validateForm SignUpForm signUpFields exampleWorld))
     = [ (name, js "Al"); (username, js "al_99"); (email, js "al@x.co");
         (password, js "secret1"); (confirmPassword, js "secret1") ].
Proof. split; vm_compute; reflexivity. Qed.

(** No short-circuit: with a name of one letter and a bad e-mail, the
    validators after the failing ones still run and both errors show. *)
Example validateForm_no_short_circuit :
  let w := typeInto "signUpEmail" (js "al.x.co") (typeInto "signUpName" (js "A") exampleWorld) in
  let r := validateForm SignUpForm signUpFields w in
  completion r = Normal false
  /\ length (validatorCalls (events r)) = 5%nat
  /\ errorMessage <$> groups (page (world r)) !! 2%nat
     = Some (Some "Name must be at least 2 characters")
  /\ errorMessage <$> groups (page (world r)) !! 4%nat
     = Some (Some "Please enter a valid email").
Proof. repeat split; vm_compute; reflexivity. Qed.

Lemma validateForm_unfold (form : FormId) (fields : list FieldSpec) :
  validateForm form fields =
  (isValid <- forEach fields (validateFormBody form) true ;;
   emit (EvValidateForm form isValid) ;;;
   ret isValid).
Proof. reflexivity. Qed.



(** ** Runs of composed computations *)

Lemma completion_bind {A B} (c : M A) (k : A -> M B) (w : World) :
  completion (bind c k w) =
  match completion (c w) with
  | Normal a => completion (k a (world (c w)))
  | Throw what => Throw what
  end.
Proof.
  unfold bind, completion, world. destruct (c w) as [[[a|what] w1] ev1]; simpl.
  - destruct (k a w1) as [[r w2] ev2]. reflexivity.
  - reflexivity.
Qed.

Lemma events_bind {A B} (c : M A) (k : A -> M B) (w : World) :
  events (bind c k w) =
  events (c w) ++
  match completion (c w) with
  | Normal a => events (k a (world (c w)))
  | Throw _ => []
  end.
Proof.
  unfold bind, completion, world, events. destruct (c w) as [[[a|what] w1] ev1]; simpl.
  - destruct (k a w1) as [[r w2] ev2]. reflexivity.
  - rewrite app_nil_r. reflexivity.
Qed.

Lemma world_bind {A B} (c : M A) (k : A -> M B) (w : World) :
  world (bind c k w) =
  match completion (c w) with
  | Normal a => world (k a (world (c w)))
  | Throw _ => world (c w)
  end.
Proof.
  unfold bind, completion, world. destruct (c w) as [[[a|what] w1] ev1]; simpl.
  - destruct (k a w1) as [[r w2] ev2]. reflexivity.
  - reflexivity.
Qed.

Lemma steps_app (ev1 ev2 : list Event) : steps (ev1 ++ ev2) = steps ev1 ++ steps ev2.
Proof. apply omap_app. Qed.

Lemma quiet_bind {A B} (c : M A) (k : A -> M B) :
  quiet c -> (forall a, quiet (k a)) -> quiet (bind c k).
Proof.
  intros Hc Hk w. rewrite events_bind, steps_app, Hc.
  destruct (completion (c w)); [apply Hk | reflexivity].
Qed.

Lemma quiet_ret {A} (a : A) : quiet (ret a).
Proof. intros w. reflexivity. Qed.

Lemma quiet_throw {A} (what : string) : quiet (@throwTypeError A what).
Proof. intros w. reflexivity. Qed.

Lemma quiet_get : quiet get.
Proof. intros w. reflexivity. Qed.

Lemma quiet_modify (f : World -> World) : quiet (modify f).
Proof. intros w. reflexivity. Qed.

Lemma quiet_validators (k : ValidatorKey) (v : jsstring) : quiet (validators k v).
Proof. intros w. rewrite validators_run. reflexivity. Qed.

Lemma quiet_setErrorText (g : nat) (text : string) : quiet (setErrorText g text).
Proof.
  unfold setErrorText. apply quiet_bind; [apply quiet_get|].
  intros w. destruct (_ ≫= _); [apply quiet_modify | apply quiet_throw].
Qed.

Lemma quiet_validateField (e : Element) (k : ValidatorKey) : quiet (validateField e k).
Proof.
  unfold validateField.
  apply quiet_bind.
  { unfold closest. apply quiet_bind; [apply quiet_get|]. intros w. apply quiet_ret. }
  intros [g|]; [|apply quiet_throw].
  apply quiet_bind; [apply quiet_validators|]. intros msg.
  apply quiet_bind; [intros w; reflexivity|]. intros _.
  unfold classListRemove, classListAdd, updateGroup.
  destruct (truthyText msg);
    repeat first
      [ apply quiet_ret
      | apply quiet_modify
      | apply quiet_setErrorText
      | apply quiet_bind; [|intros _]
      | destruct (truthy (trim (elValue e))) ].
Qed.

Lemma quiet_forEach (form : FormId) (fields : list FieldSpec) :
  forall isValid, quiet (forEach fields (validateFormBody form) isValid).
Proof.
  induction fields as [|field fields IH]; intros isValid; cbn [forEach].
  - apply quiet_ret.
  - apply quiet_bind; [|intros b; apply IH].
    unfold validateFormBody. apply quiet_bind.
    { unfold querySelectorId. apply quiet_bind; [apply quiet_get|].
      intros w. apply quiet_ret. }
    intros [e|]; [|apply quiet_ret].
    apply quiet_bind; [apply quiet_validateField|]. intros ok. apply quiet_ret.
Qed.

(** [validateForm] accounts for one step, when it returns. *)
Lemma validateForm_steps (form : FormId) (fields : list FieldSpec) (w : World) :
  steps (events (validateForm form fields w)) =
  match completion (validateForm form fields w) with
  | Normal isValid => [Validation isValid]
  | Throw _ => []
  end.
Proof.
  rewrite validateForm_unfold, events_bind, completion_bind, steps_app.
  rewrite (quiet_forEach form fields true w).
  destruct (completion (forEach fields (validateFormBody form) true w)); reflexivity.
Qed.

(** ** CSRF token manager *)

Lemma hexDigit_isHexDigit (d : N) : (d < 16)%N -> isHexDigit (hexDigit d) = true.
Proof.
  intros Hd. unfold hexDigit, isHexDigit.
  destruct (N.ltb_spec d 10); apply orb_true_iff; [left | right];
    apply andb_true_iff; split; apply N.leb_le; lia.
Qed.

Lemma toString16_padded (byte : Byte.byte) :
  length (padStart 2 48 (toString16 byte)) = 2%nat
  /\ Forall (fun c => isHexDigit c = true) (padStart 2 48 (toString16 byte)).
Proof.
  pose proof (Byte.to_N_bounded byte) as Hb.
  unfold toString16, padStart.
  destruct (N.ltb_spec (Byte.to_N byte) 16) as [Hlt|Hge]; simpl.
  - split; [reflexivity|].
    repeat constructor. apply hexDigit_isHexDigit. exact Hlt.
  - split; [reflexivity|].
    repeat constructor; apply hexDigit_isHexDigit.
    + apply N.Div0.div_lt_upper_bound. lia.
    + apply N.mod_lt. lia.
Qed.

Lemma hexEncode_spec (array : list Byte.byte) :
  length (hexEncode array) = (2 * length array)%nat
  /\ Forall (fun c => isHexDigit c = true) (hexEncode array).
Proof.
  unfold hexEncode. induction array as [|byte array [IHlen IHhex]]; simpl.
  - split; [reflexivity | constructor].
  - destruct (toString16_padded byte) as [Hlen Hhex].
    rewrite length_app, Hlen, IHlen. split; [lia|].
    apply Forall_app. split; assumption.
Qed.

(** The token [generateToken] makes in a world: the hex encoding of the
    next 32 bytes of the random source. *)
Lemma generateToken_run (w : World) :
  generateToken w =
  (Normal (hexEncode (map (entropy w) (seq (entropyReads w) 32))),
   set_csrfToken (Some (hexEncode (map (entropy w) (seq (entropyReads w) 32))))
     (set_entropyReads (entropyReads w + 32) w),
   [EvGenerateToken (hexEncode (map (entropy w) (seq (entropyReads w) 32)))]).
Proof. reflexivity. Qed.

Lemma generated_token_shape (w : World) :
  length (hexEncode (map (entropy w) (seq (entropyReads w) 32))) = 64%nat
  /\ Forall (fun c => isHexDigit c = true)
       (hexEncode (map (entropy w) (seq (entropyReads w) 32))).
Proof.
  destruct (hexEncode_spec (map (entropy w) (seq (entropyReads w) 32))) as [Hlen Hhex].
  split; [|exact Hhex]. rewrite Hlen, length_map, length_seq. reflexivity.
Qed.

Lemma truthy_length (t : jsstring) n : length t = S n -> truthy t = true.
Proof. destruct t; [discriminate | reflexivity]. Qed.

(** [getToken] answers a non-empty token that is the current one
    afterwards, without touching the page, and asked again at once it
    answers the same and changes nothing. *)
Lemma getToken_spec (w : World) :
  exists t w' evs,
    getToken w = (Normal t, w', evs)
    /\ csrfToken w' = Some t
    /\ truthy t = true
    /\ page w' = page w
    /\ steps evs = []
    /\ getToken w' = (Normal t, w', []).
Proof.
  assert (Hgen : exists t w' evs,
            generateToken w = (Normal t, w', evs)
            /\ csrfToken w' = Some t /\ truthy t = true /\ page w' = page w
            /\ steps evs = [] /\ getToken w' = (Normal t, w', [])).
  { rewrite generateToken_run. do 3 eexists. split; [reflexivity|].
    destruct (generated_token_shape w) as [Hlen _].
    pose proof (truthy_length _ _ Hlen) as Ht.
    repeat split; try reflexivity; try exact Ht.
    unfold getToken, bind, get. cbn [csrfToken set_csrfToken]. rewrite Ht. reflexivity. }
  unfold getToken at 1, bind at 1, get at 1. cbv beta iota.
  destruct (csrfToken w) as [t|] eqn:Etok.
  - destruct (truthy t) eqn:Et.
    + exists t, w, []. unfold ret. repeat split; auto.
      unfold getToken, bind, get. cbv beta iota. rewrite Etok, Et. reflexivity.
    + destruct Hgen as [t' [w' [evs [Hrun H]]]]. exists t', w', evs.
      split; [|exact H]. destruct (generateToken w) as [[r w2] ev2].
      inversion Hrun; subst. rewrite app_nil_l. reflexivity.
  - destruct Hgen as [t' [w' [evs [Hrun H]]]]. exists t', w', evs.
    split; [|exact H]. destruct (generateToken w) as [[r w2] ev2].
    inversion Hrun; subst. reflexivity.
Qed.

(** ** The submit handlers *)

(** Once the form is valid: the token that is current after [getToken] is
    appended under [_csrf] and logged; then the button, if there is one,
    turns busy and the timer starts. *)
Lemma attachAndSubmit_run (form : FormId) (w : World) :
  exists t wt evs,
    getToken w = (Normal t, wt, evs)
    /\ csrfToken wt = Some t
    /\ steps evs = []
    /\ attachAndSubmit form w =
       match buttonOf form (page w) with
       | Some b =>
           (Normal true,
            set_page (set_button form
                        (Some (mkButton ({["loading"]} ∪ btnClassList b) true)) (page wt)) wt,
            evs ++ [EvFormDataAppend "_csrf" t; EvConsoleLog t;
                    EvBusy form true; EvSetTimeout 1500 (SubmissionDone form)])
       | None =>
           (Throw "button is null", wt,
            evs ++ [EvFormDataAppend "_csrf" t; EvConsoleLog t])
       end.
Proof.
  destruct (getToken_spec w) as [t [wt [evs [Hrun [Htok [_ [Hpage [Hsteps Hagain]]]]]]]].
  exists t, wt, evs. repeat split; auto.
  unfold attachAndSubmit. unfold bind at 1, get at 1. cbv beta iota zeta.
  unfold addToFormData. unfold bind at 1. unfold bind at 1. rewrite Hrun. cbv beta iota.
  unfold bind at 1, emit at 1, ret at 1. cbv beta iota.
  unfold bind at 1. rewrite Hagain. cbv beta iota.
  unfold bind at 1, emit at 1. cbv beta iota.
  unfold bind at 1.
  destruct (buttonOf form (page w)) as [b|] eqn:Eb.
  - unfold simulateFormSubmission, setTimeout, bind, modify, emit, ret. cbv beta iota.
    rewrite Hpage, Eb. simpl. rewrite <- app_assoc. reflexivity.
  - unfold simulateFormSubmission, throwTypeError. cbv beta iota.
    simpl. rewrite <- app_assoc. reflexivity.
Qed.

Lemma canProceed_run (form : FormId) (w : World) :
  canProceed form w =
  (Normal (RateLimiter.canProceed (clock w (clockReads w)) (rateLimiterOf form w)).1,
   set_rateLimiter form
     (RateLimiter.canProceed (clock w (clockReads w)) (rateLimiterOf form w)).2
     (set_clockReads (S (clockReads w)) w),
   [EvCanProceed form
      (RateLimiter.canProceed (clock w (clockReads w)) (rateLimiterOf form w)).1]).
Proof. destruct form; reflexivity. Qed.

Lemma getRemainingTime_run (form : FormId) (w : World) :
  getRemainingTime form w =
  (Normal (RateLimiter.getRemainingTime (clock w (clockReads w)) (rateLimiterOf form w)),
   set_clockReads (S (clockReads w)) w, []).
Proof. destruct form; reflexivity. Qed.

Lemma showToast_run (message : string) (type : ToastType) (w : World) :
  showToast message type w =
  (Normal tt,
   set_page (set_toastContainer (toastContainer (page w) ++ [(type, message)]) (page w)) w,
   [EvToast type message; EvSetTimeout 3000 (HideToast (length (toastContainer (page w))))]).
Proof. reflexivity. Qed.

Lemma submitHandler_unfold (form : FormId) :
  submitHandler form =
  (emit (EvPreventDefault form) ;;;
   ok <- canProceed form ;;
   if negb ok then
     ms <- getRemainingTime form ;;
     showToast ("Please wait " +:+ pretty (ceilSeconds ms) +:+ "s before trying again")
       error ;;;
     ret false
   else
     valid <- validateForm form (fieldsOf form) ;;
     if negb valid then
       showToast "Please fix the errors above" error ;;;
       ret false
     else attachAndSubmit form).
Proof. reflexivity. Qed.

(** The handler up to [await], by what the limiter and the form gate
    answer. *)
Lemma submitHandler_steps (form : FormId) (w : World) :
  let r := submitHandler form w in
  (completion r = Normal false
   /\ steps (events r) = [RateLimitCheck false; Notification error])
  \/ (completion r = Normal false
      /\ steps (events r) = [RateLimitCheck true; Validation false; Notification error])
  \/ ((exists what, completion r = Throw what)
      /\ steps (events r) = [RateLimitCheck true])
  \/ ((exists what, completion r = Throw what)
      /\ steps (events r) = [RateLimitCheck true; Validation true])
  \/ (completion r = Normal true
      /\ steps (events r) = [RateLimitCheck true; Validation true; BusyEntry; TimedWait]).
Proof.
  intros r. assert (Hr : r = submitHandler form w) by reflexivity. clearbody r.
  rewrite submitHandler_unfold in Hr.
  unfold bind at 1, emit at 1 in Hr. cbv beta iota in Hr.
  unfold bind at 1 in Hr. rewrite canProceed_run in Hr. cbv beta iota in Hr.
  destruct ((RateLimiter.canProceed (clock w (clockReads w)) (rateLimiterOf form w)).1);
    cbn [negb] in Hr.
  - set (w1 := set_rateLimiter form _ _) in Hr.
    unfold bind at 1 in Hr.
    pose proof (validateForm_steps form (fieldsOf form) w1) as Hst.
    destruct (validateForm form (fieldsOf form) w1) as [[[valid|what] w2] ev2];
      unfold completion, events in Hst; cbn [fst snd] in Hst.
    + destruct valid; cbn [negb] in Hr.
      * destruct (attachAndSubmit_run form w2) as [t [wt [evs [_ [_ [Hq Hrun]]]]]].
        rewrite Hrun in Hr. destruct (buttonOf form (page w2)); subst r;
          unfold completion, events; cbn [fst snd].
        -- do 4 right. split; [reflexivity|].
           change (?a :: ?b :: ev2 ++ ?c) with ([a; b] ++ ev2 ++ c).
           rewrite !steps_app, Hst, Hq. reflexivity.
        -- do 3 right. left. split; [eauto|].
           change (?a :: ?b :: ev2 ++ ?c) with ([a; b] ++ ev2 ++ c).
           rewrite !steps_app, Hst, Hq. reflexivity.
      * right. left. unfold bind in Hr. cbv beta iota in Hr.
        rewrite showToast_run in Hr. unfold ret in Hr.
        subst r. unfold completion, events. cbn [fst snd]. split; [reflexivity|].
        change (?a :: ?b :: ev2 ++ ?c) with ([a; b] ++ ev2 ++ c).
        rewrite !steps_app, Hst. reflexivity.
    + do 2 right. left. subst r. unfold completion, events. cbn [fst snd]. split; [eauto|].
      change (?a :: ?b :: ev2) with ([a; b] ++ ev2).
      rewrite !steps_app, Hst. reflexivity.
  - left. unfold bind at 1 in Hr. rewrite getRemainingTime_run in Hr.
    unfold bind, ret in Hr. cbv beta iota in Hr. rewrite showToast_run in Hr.
    subst r. unfold completion, events. cbn [fst snd]. split; reflexivity.
Qed.

(** After [await]: busy exit, token refresh, success toast; the sign-in
    handler throws before the toast when the page has no "remember me"
    box. The new token is the hex encoding of the next 32 random bytes. *)
Lemma resumeHandler_run (form : FormId) (w : World) :
  let r := resumeHandler form w in
  let t := hexEncode (map (entropy w) (seq (entropyReads w) 32)) in
  csrfToken (world r) = Some t
  /\ (exists rest, events r = EvBusy form false :: EvRefreshToken :: EvGenerateToken t :: rest
                   /\ ((completion r = Normal tt /\ steps rest = [Notification success])
                       \/ ((exists what, completion r = Throw what) /\ steps rest = []))).
Proof.
  destruct form.
  - intros r t.
    assert (Hr : r = signInResume w) by reflexivity. clearbody r. unfold signInResume in Hr.
    unfold bind at 1 in Hr. unfold submissionDone at 1, bind at 1, modify, emit at 1 in Hr.
    cbv beta iota in Hr.
    unfold bind at 1, refreshToken, bind at 1, emit at 1 in Hr. cbv beta iota in Hr.
    rewrite generateToken_run in Hr. cbv beta iota in Hr.
    unfold bind at 1, getElementById, bind at 1, get, ret at 1 in Hr. cbv beta iota in Hr.
    cbn [page set_page set_csrfToken set_entropyReads elements set_button
         entropy entropyReads] in Hr.
    fold t in Hr.
    destruct (find _ (elements (page w))) as [box|].
    + unfold bind at 1 in Hr. destruct (elChecked box).
      * unfold setItem, bind at 1, modify, emit in Hr. cbv beta iota in Hr.
        rewrite showToast_run in Hr. subst r. unfold world, events, completion.
        cbn [fst snd]. split; [reflexivity|]. eexists. split; [reflexivity|].
        left. split; reflexivity.
      * unfold removeItem, bind at 1, modify, emit in Hr. cbv beta iota in Hr.
        rewrite showToast_run in Hr. subst r. unfold world, events, completion.
        cbn [fst snd]. split; [reflexivity|]. eexists. split; [reflexivity|].
        left. split; reflexivity.
    + unfold throwTypeError in Hr. subst r. unfold world, events, completion.
      cbn [fst snd]. split; [reflexivity|]. eexists. split; [reflexivity|].
      right. split; [eauto | reflexivity].
  - intros r t. subst r t. unfold world, events, completion.
    split; [reflexivity|]. eexists. split; [reflexivity|]. left. split; reflexivity.
Qed.

Lemma resumeHandler_steps (form : FormId) (w : World) :
  let r := resumeHandler form w in
  (completion r = Normal tt
   /\ steps (events r) = [BusyExit; TokenRefresh; Notification success])
  \/ ((exists what, completion r = Throw what)
      /\ steps (events r) = [BusyExit; TokenRefresh]).
Proof.
  intros r. destruct (resumeHandler_run form w) as [_ [rest [Hev Hcase]]].
  fold r in Hev, Hcase. rewrite Hev.
  change (?a :: ?b :: ?c :: rest) with ([a; b; c] ++ rest). rewrite steps_app.
  destruct Hcase as [[Hc Hs]|[Hc Hs]]; rewrite Hs; [left | right]; split; auto.
Qed.

(** C7 (as amended): the steps of one submission are the sequence
    rate-limit check, validation, busy entry, timed wait, busy exit, token
    refresh, success notification, or a beginning of it when the handler
    throws on the way, so a step of the sequence runs only after all the
    earlier ones; except that a rejection by the limiter and a failed
    validation, which stop the sequence there, are each reported at once
    by an error notification, the last step of such a submission. A
    submission that is suspended at [await] and whose rest does not throw
    goes through the whole sequence. *)
Theorem submission_steps_in_order (form : FormId) (w1 w2 : World) :
  let s := steps (submissionEvents form w1 w2) in
  (s = [RateLimitCheck false; Notification error]
   \/ s = [RateLimitCheck true; Validation false; Notification error]
   \/ s `prefix_of` submissionSteps)
  /\ (completion (submitHandler form w1) = Normal true ->
      completion (resumeHandler form w2) = Normal tt ->
      s = submissionSteps).
Proof.
  intros s. subst s. unfold submissionEvents.
  destruct (submitHandler_steps form w1)
    as [[Hc Hs]|[[Hc Hs]|[[[what Hc] Hs]|[[[what Hc] Hs]|[Hc Hs]]]]];
    rewrite Hc; cbv zeta iota; try rewrite Hs.
  - split; [left; reflexivity | discriminate].
  - split; [right; left; reflexivity | discriminate].
  - split; [|discriminate]. right. right. eexists. reflexivity.
  - split; [|discriminate]. right. right. eexists. reflexivity.
  - rewrite steps_app, Hs.
    destruct (resumeHandler_steps form w2) as [[Hc2 Hs2]|[[what Hc2] Hs2]];
      rewrite Hs2, Hc2.
    + split; [|reflexivity]. right. right. exists []. reflexivity.
    + split; [|discriminate]. right. right. eexists. reflexivity.
Qed.

(** C7, as it was stated, fails: a second sign-in 7 ms after an accepted
    one is rejected by the limiter, and a notification, the last step of
    the sequence, still runs, with no validation, busy state, wait or
    token refresh before it. *)
Lemma rejected_submission_still_notifies :
  completion (submitHandler SignInForm exampleWorld) = Normal true
  /\ steps (events (submitHandler SignInForm
                      (world (submitHandler SignInForm exampleWorld))))
     = [RateLimitCheck false; Notification error]
  /\ events (submitHandler SignInForm (world (submitHandler SignInForm exampleWorld)))
     = [ EvPreventDefault SignInForm; EvCanProceed SignInForm false;
         EvToast error "Please wait 2s before trying again";
         EvSetTimeout 3000 (HideToast 0) ].
Proof. repeat split; vm_compute; reflexivity. Qed.

(** The scenarios of the specification: a sign-up that goes through, and
    a sign-in stopped by the form gate. *)
Example signUp_goes_through :
  steps (submissionEvents SignUpForm exampleWorld
           (world (submitHandler SignUpForm exampleWorld)))
  = submissionSteps.
Proof. vm_compute. reflexivity. Qed.

Example signIn_stopped_by_validation :
  steps (submissionEvents SignInForm (typeInto "signInEmail" (js "a@b") exampleWorld)
           exampleWorld)
  = [RateLimitCheck true; Validation false; Notification error].
Proof. vm_compute. reflexivity. Qed.



(** C8 on the example page: the first token, and the sign-up submission
    with the token it carries and the one that replaces it. *)
Example csrf_token_scenario :
  csrfToken exampleWorld
  = Some (js "0b30557a9fc4e90e33587da2c7ec11365b80a5caef14395e83a8cdf2173c6186")
  /\ events (submitHandler SignUpForm exampleWorld)
     = EvPreventDefault SignUpForm :: EvCanProceed SignUpForm true
         :: fieldEvents SignUpForm exampleWorld signUpFields
         ++ [ EvValidateForm SignUpForm true;
              EvFormDataAppend "_csrf"
                (js "0b30557a9fc4e90e33587da2c7ec11365b80a5caef14395e83a8cdf2173c6186");
              EvConsoleLog
                (js "0b30557a9fc4e90e33587da2c7ec11365b80a5caef14395e83a8cdf2173c6186");
              EvBusy SignUpForm true; EvSetTimeout 1500 (SubmissionDone SignUpForm) ]
  /\ csrfToken (world (resumeHandler SignUpForm (world (submitHandler SignUpForm exampleWorld))))
     = Some (js "abd0f51a3f6489aed3f81d42678cb1d6fb20456a8fb4d9fe23486d92b7dc0126").
Proof. repeat split; vm_compute; reflexivity. Qed.

(** ** Further properties of the specification *)

(** X1: the name validator passes exactly when the trimmed value has at
    least 2 code units. *)
Theorem name_passes_iff (value : jsstring) :
  validators_name value = EmptyString <-> (2 <= length (trim value))%nat.
Proof.
  unfold validators_name. destruct (trim value) as [|c t]; simpl.
  - split; [discriminate | lia].
  - destruct t; simpl; split; try discriminate; try reflexivity; lia.
Qed.

(** X2: the password validator passes exactly when the value, untrimmed,
    has at least 6 code units. *)
Theorem password_passes_iff (value : jsstring) :
  validators_password value = EmptyString <-> (6 <= length value)%nat.
Proof.
  unfold validators_password. destruct value as [|c t]; simpl truthy; simpl negb; cbv iota.
  - simpl. split; [discriminate | lia].
  - destruct (Nat.ltb_spec (length (c :: t)) 6); split;
      try discriminate; try reflexivity; lia.
Qed.

(** X3: the limiters of the two forms share no state: an attempt on one
    form leaves the limiter of the other as it was. *)
Theorem rate_limiters_independent (w : World) :
  signUpRateLimiter (world (canProceed SignInForm w)) = signUpRateLimiter w
  /\ signInRateLimiter (world (canProceed SignUpForm w)) = signInRateLimiter w.
Proof. rewrite !canProceed_run. split; reflexivity. Qed.

(** X4: a field whose validator fails gets the class [error], loses the
    class [success], and shows the validator's message. *)
Theorem failing_field_is_marked (e : Element) (k : ValidatorKey) (w : World) g grp :
  elGroup e = Some g ->
  groups (page w) !! g = Some grp ->
  is_Some (errorMessage grp) ->
  validatorMessage k (elValue e) w <> EmptyString ->
  completion (validateField e k w) = Normal false
  /\ (exists grp', groups (page (world (validateField e k w))) !! g = Some grp'
                   /\ "error" ∈ classList grp'
                   /\ ("success" ∉ classList grp')
                   /\ errorMessage grp' = Some (validatorMessage k (elValue e) w)).
Proof.
  intros Hg Hgrp Herr Hmsg. rewrite (validateField_run e k w g grp Hg Hgrp Herr).
  unfold completion, world. cbn [fst snd]. rewrite withGroups_groups.
  destruct (validatorMessage k (elValue e) w) as [|c msg] eqn:E; [congruence|].
  split; [reflexivity|]. eexists. split.
  - rewrite list_lookup_alter_eq, Hgrp. reflexivity.
  - unfold markGroup. cbn [truthyText classList errorMessage]. repeat split.
    + apply elem_of_union. left. apply elem_of_singleton. reflexivity.
    + intros H. apply elem_of_union in H as [H|H].
      * apply elem_of_singleton in H. discriminate.
      * apply elem_of_difference in H as [_ H]. apply H, elem_of_singleton. reflexivity.
Qed.

Lemma failing_field_is_marked_witness :
  let w := typeInto "signUpName" (js "A") exampleWorld in
  let e := mkElement "signUpName" (Some SignUpForm) (js "A") false (Some 2%nat) in
  completion (validateField e name w) = Normal false
  /\ (exists grp', groups (page (world (validateField e name w))) !! 2%nat = Some grp'
                   /\ "error" ∈ classList grp'
                   /\ ("success" ∉ classList grp')
                   /\ errorMessage grp' = Some (validatorMessage name (elValue e) w)).
Proof.
  intros w e.
  apply (failing_field_is_marked e name w 2%nat
           (mkInputGroup {["input-group"]} (Some EmptyString))).
  - reflexivity.
  - vm_compute. reflexivity.
  - eexists. reflexivity.
  - vm_compute. discriminate.
Defined.

(** The scenario of the specification, to its end: after the sign-up
    form is validated, the groups of its five inputs carry [success] and
    none carries [error]; the rest of the handler leaves the button idle
    and asks for the switch to the sign-in panel after 1000 ms. *)
Example signUp_scenario_marks :
  let r := validateForm SignUpForm signUpFields exampleWorld in
  (fun grp => (bool_decide ("success" ∈ classList grp), bool_decide ("error" ∈ classList grp)))
    <$> groups (page (world r))
  = [ (false, false); (false, false); (true, false); (true, false); (true, false);
      (true, false); (true, false) ].
Proof. vm_compute. reflexivity. Qed.

Example signUp_scenario_rest :
  let w1 := world (submitHandler SignUpForm exampleWorld) in
  let r := resumeHandler SignUpForm w1 in
  (btnDisabled <$> signUpButton (page w1)) = Some true
  /\ (btnDisabled <$> signUpButton (page (world r))) = Some false
  /\ steps (events r) = [BusyExit; TokenRefresh; Notification success]
  /\ last (events r) = Some (EvSetTimeout 1000 SwitchToSignIn)
  /\ toastContainer (page (world r)) = [(success, "Account created successfully!")].
Proof. repeat split; vm_compute; reflexivity. Qed.

(** ** Runs of a rate limiter *)

(** X5: whatever the readings of the clock at which [canProceed] is
    called, in whatever order, the readings it accepts are at least the
    cooldown apart, the first one at least the cooldown after the last
    accepted time it started with; the limiter then holds the last
    accepted reading, and its cooldown is unchanged. *)
Theorem accepted_calls_are_spaced (times : list Z) (rl : RateLimiter.t) :
  spacedFrom (RateLimiter.intervalMs rl) (RateLimiter.lastCall rl) (acceptedTimes times rl)
  /\ RateLimiter.lastCall (afterCalls times rl)
     = default (RateLimiter.lastCall rl) (last (acceptedTimes times rl))
  /\ RateLimiter.intervalMs (afterCalls times rl) = RateLimiter.intervalMs rl.
Proof.
  revert rl. induction times as [|now rest IH]; intros rl; cbn [acceptedTimes afterCalls].
  - repeat split.
  - destruct (RateLimiter.canProceed now rl).1 eqn:Hacc.
    + pose proof (canProceed_accepted_state now rl Hacc) as Hst.
      apply canProceed_accepts_iff in Hacc.
      destruct (IH (RateLimiter.canProceed now rl).2) as [Hsp [Hlast Hint]].
      rewrite Hst in Hsp, Hlast, Hint. cbn in Hsp, Hlast, Hint. rewrite Hst.
      split; [split; assumption|]. split; [|exact Hint].
      rewrite Hlast. destruct (acceptedTimes rest _) as [|t l] eqn:E; [reflexivity|].
      rewrite last_cons_cons. destruct (last (t :: l)) eqn:El; [reflexivity|].
      apply last_None in El. discriminate.
    + pose proof (canProceed_rejected_state now rl Hacc) as Hst.
      destruct (IH (RateLimiter.canProceed now rl).2) as [Hsp [Hlast Hint]].
      rewrite Hst in Hsp, Hlast, Hint. cbn in Hsp, Hlast, Hint. rewrite Hst.
      repeat split; assumption.
Qed.

(** The limiter of a form used at seven readings, some of them out of
    order: three are accepted, 2000 ms or more apart. *)
Example accepted_calls_scenario :
  acceptedTimes [5000; 5500; 6999; 7000; 6000; 9500; 11499]
    (RateLimiter.createRateLimiter (Some 2000))
  = [5000; 7000; 9500].
Proof. reflexivity. Qed.

(** X6: the remaining time a limiter reports at a reading is 0 exactly
    when [canProceed] at that reading accepts, and then [canProceed]
    leaves a remaining time of the whole cooldown (when that is not
    negative). *)
Theorem remaining_time_zero_iff_accepted (now : Z) (rl : RateLimiter.t) :
  (RateLimiter.getRemainingTime now rl = 0 <-> (RateLimiter.canProceed now rl).1 = true)
  /\ ((RateLimiter.canProceed now rl).1 = true ->
      RateLimiter.getRemainingTime now (RateLimiter.canProceed now rl).2
      = Z.max 0 (RateLimiter.intervalMs rl)).
Proof.
  split.
  - rewrite canProceed_accepts_iff. unfold RateLimiter.getRemainingTime. lia.
  - intros Hacc. rewrite (canProceed_accepted_state now rl Hacc).
    unfold RateLimiter.getRemainingTime. cbn. f_equal. lia.
Qed.




(** ** Password strength *)

Lemma Lang_anything (s : jsstring) :
  Regex.Lang (Regex.Star (Regex.Class (fun _ => true))) s.
Proof.
  apply RegexFacts.Lang_Star_Class. induction s; constructor; auto.
Qed.

(** An unanchored class pattern finds a code unit of the class. *)
Lemma regexSearch_Class (p : N -> bool) (s : jsstring) :
  regexSearch (Regex.Class p) s = true <-> exists c, In c s /\ p c = true.
Proof.
  unfold regexSearch. rewrite RegexFacts.matches_Lang. split.
  - intros H. apply RegexFacts.Lang_Seq in H as [s1 [r [-> [_ H]]]].
    apply RegexFacts.Lang_Seq in H as [a [s2 [-> [Ha _]]]].
    apply RegexFacts.Lang_Class in Ha as [c [-> Hc]].
    exists c. split; [|exact Hc]. apply in_or_app. right. left. reflexivity.
  - intros [c [Hin Hc]]. apply in_split in Hin as [l1 [l2 ->]].
    apply Regex.LSeq; [apply Lang_anything|].
    change (c :: l2) with ([c] ++ l2).
    apply Regex.LSeq; [constructor; exact Hc | apply Lang_anything].
Qed.

Lemma regexSearch_Class_grows (p : N -> bool) (pre s post : jsstring) :
  regexSearch (Regex.Class p) s = true ->
  regexSearch (Regex.Class p) (pre ++ s ++ post) = true.
Proof.
  rewrite !regexSearch_Class. intros [c [Hin Hc]]. exists c. split; [|exact Hc].
  apply in_or_app. right. apply in_or_app. left. exact Hin.
Qed.

Lemma checkPasswordStrength_strong (password : jsstring) :
  checkPasswordStrength password = "strong" <-> strengthScore password = 5%nat.
Proof.
  unfold checkPasswordStrength.
  assert (Hmax : (strengthScore password <= 5)%nat).
  { unfold strengthScore.
    repeat match goal with |- context [if ?b then _ else _] => destruct b end; lia. }
  destruct (Nat.leb_spec (strengthScore password) 2);
    [split; [discriminate | lia]|].
  destruct (Nat.leb_spec (strengthScore password) 4);
    [split; [discriminate | lia]|].
  split; [lia | reflexivity].
Qed.

Lemma checkPasswordStrength_weak (password : jsstring) :
  checkPasswordStrength password = "weak" <-> (strengthScore password <= 2)%nat.
Proof.
  unfold checkPasswordStrength.
  destruct (Nat.leb_spec (strengthScore password) 2); [split; auto|].
  destruct (Nat.leb_spec (strengthScore password) 4); split; try discriminate; lia.
Qed.

(** X8: a password is rated "strong" exactly when it has at least 12 code
    units, a lower-case and an upper-case ASCII letter, an ASCII digit,
    and a code unit that is neither; so no password of fewer than 12 code
    units is strong, and one of fewer than 8 is "weak" unless it has all
    of these kinds of characters. *)
Theorem strong_password_iff (password : jsstring) :
  (checkPasswordStrength password = "strong" <->
     (12 <= length password)%nat
     /\ (exists c, In c password /\ lowerChar c = true)
     /\ (exists c, In c password /\ upperChar c = true)
     /\ (exists c, In c password /\ digitChar c = true)
     /\ (exists c, In c password /\ notAlnumChar c = true))
  /\ ((length password < 8)%nat ->
      (checkPasswordStrength password = "weak" <->
         ~ ((exists c, In c password /\ lowerChar c = true)
            /\ (exists c, In c password /\ upperChar c = true)
            /\ (exists c, In c password /\ digitChar c = true)
            /\ (exists c, In c password /\ notAlnumChar c = true)))).
Proof.
  rewrite checkPasswordStrength_strong, checkPasswordStrength_weak.
  rewrite <- !regexSearch_Class. unfold strengthScore.
  destruct (Nat.leb_spec 8 (length password));
    destruct (Nat.leb_spec 12 (length password));
    destruct (regexSearch (Regex.Class lowerChar) password);
    destruct (regexSearch (Regex.Class upperChar) password);
    destruct (regexSearch (Regex.Class digitChar) password);
    destruct (regexSearch (Regex.Class notAlnumChar) password);
    cbn [andb Nat.add];
    intuition (first [lia | discriminate | congruence]).
Qed.

Lemma indicator_le (b b' : bool) :
  (b = true -> b' = true) ->
  ((if b then 1 else 0) <= (if b' then 1 else 0))%nat.
Proof.
  destruct b, b'; intros H; cbv iota; try apply Nat.le_refl; try apply Nat.le_0_l.
  specialize (H eq_refl). discriminate.
Qed.

(** X9: typing more characters before or after a password never lowers
    its rating: the score does not drop, a "strong" password stays
    "strong" and one that is not "weak" does not become "weak". *)
Theorem password_strength_grows (pre password post : jsstring) :
  (strengthScore password <= strengthScore (pre ++ password ++ post))%nat
  /\ (checkPasswordStrength password = "strong" ->
      checkPasswordStrength (pre ++ password ++ post) = "strong")
  /\ (checkPasswordStrength password <> "weak" ->
      checkPasswordStrength (pre ++ password ++ post) <> "weak").
Proof.
  assert (Hlen : (length password <= length (pre ++ password ++ post))%nat)
    by (rewrite !length_app; lia).
  assert (Hle : (strengthScore password <= strengthScore (pre ++ password ++ post))%nat).
  { unfold strengthScore.
    repeat apply Nat.add_le_mono; apply indicator_le.
    - intros H. apply Nat.leb_le in H. apply Nat.leb_le. lia.
    - intros H. apply Nat.leb_le in H. apply Nat.leb_le. lia.
    - intros H. apply andb_true_iff in H as [H1 H2]. apply andb_true_iff.
      split; apply regexSearch_Class_grows; assumption.
    - apply regexSearch_Class_grows.
    - apply regexSearch_Class_grows. }
  split; [exact Hle|]. split.
  - rewrite !checkPasswordStrength_strong. intros H.
    assert (Hmax : (strengthScore (pre ++ password ++ post) <= 5)%nat).
    { unfold strengthScore.
      repeat match goal with |- context [if ?b then _ else _] => destruct b end; lia. }
    lia.
  - rewrite !checkPasswordStrength_weak. lia.
Qed.

Example password_strength_examples :
  checkPasswordStrength [] = "weak"
  /\ checkPasswordStrength (js "secret1") = "weak"
  /\ checkPasswordStrength (js "12345678901234567890") = "medium"
  /\ checkPasswordStrength (js "Secret1!") = "medium"
  /\ checkPasswordStrength (js "correct Horse 9 battery") = "strong".
Proof. repeat split; vm_compute; reflexivity. Qed.

(** ** Validation while the user types *)

(** X10: for every field of the sign-in and the sign-up form, the blur
    listener picks, from the id alone, the validator that the submit
    handler lists for that field, so validating on blur changes the
    page and answers as [validateField] with the listed validator. *)
Theorem blur_validates_like_submit
    (form : FormId) (field : FieldSpec) (e : Element) (w : World) :
  In field (fieldsOf form) ->
  elId e = id field ->
  blurValidatorKey (elId e) = Some (validator field)
  /\ world (onBlur e w) = world (validateField e (validator field) w)
  /\ events (onBlur e w) = events (validateField e (validator field) w)
  /\ (completion (onBlur e w) = Normal tt <->
      exists ok, completion (validateField e (validator field) w) = Normal ok).
Proof.
  intros Hin Hid.
  assert (Hkey : blurValidatorKey (elId e) = Some (validator field)).
  { rewrite Hid. destruct form; cbn [fieldsOf signInFields signUpFields In] in Hin;
      repeat (destruct Hin as [<-|Hin]; [vm_compute; reflexivity|]); destruct Hin. }
  split; [exact Hkey|]. unfold onBlur. rewrite Hkey.
  rewrite world_bind, events_bind, completion_bind.
  destruct (completion (validateField e (validator field) w)) as [ok|what] eqn:Hc.
  - cbn. rewrite app_nil_r. repeat split; eauto.
  - cbn. rewrite app_nil_r. repeat split; try discriminate.
    intros [ok Hok]. discriminate.
Qed.

(** X10 on the user-name input of the example page. *)
Lemma blur_validates_like_submit_witness :
  let e := mkElement "signUpUsername" (Some SignUpForm) (js "al_99") false (Some 3%nat) in
  blurValidatorKey (elId e) = Some username
  /\ world (onBlur e exampleWorld) = world (validateField e username exampleWorld)
  /\ events (onBlur e exampleWorld) = events (validateField e username exampleWorld)
  /\ (completion (onBlur e exampleWorld) = Normal tt <->
      exists ok, completion (validateField e username exampleWorld) = Normal ok).
Proof.
  intros e.
  apply (blur_validates_like_submit SignUpForm (mkField "signUpUsername" username)
           e exampleWorld).
  - right. left. reflexivity.
  - reflexivity.
Defined.

(** Ids the two forms do not use: "userName" is a user name, not a name;
    "nickname" is a name; "rememberMe" has no validator. *)
Example blurValidatorKey_examples :
  blurValidatorKey "userName" = Some username
  /\ blurValidatorKey "nickname" = Some name
  /\ blurValidatorKey "newPasswordConfirmPassword" = Some confirmPassword
  /\ blurValidatorKey "rememberMe" = None.
Proof. repeat split; vm_compute; reflexivity. Qed.

Lemma classListContains_run (g : nat) (c : string) (w : World) grp :
  groups (page w) !! g = Some grp ->
  classListContains g c w = (Normal (bool_decide (c ∈ classList grp)), w, []).
Proof.
  intros Hgrp. unfold classListContains, bind, get, ret. cbv beta iota.
  rewrite Hgrp. reflexivity.
Qed.

Lemma onInput_run (e : Element) (w : World) g grp :
  elGroup e = Some g ->
  groups (page w) !! g = Some grp ->
  is_Some (errorMessage grp) ->
  onInput e w =
  (Normal tt,
   (if bool_decide ("error" ∈ classList grp)
    then withGroups
           (alter (fun grp => mkInputGroup (classList grp ∖ {["error"]}) (Some EmptyString))
              g (groups (page w))) w
    else w),
   []).
Proof.
  intros Hg Hgrp [t Ht]. unfold onInput.
  step_with (closest_run e w g grp Hg Hgrp).
  step_with (classListContains_run g "error" w grp Hgrp).
  destruct (bool_decide ("error" ∈ classList grp)); [|reflexivity].
  unfold classListRemove. step_with updateGroup_run.
  erewrite setErrorText_run;
    [| rewrite withGroups_groups, list_lookup_alter_eq, Hgrp; reflexivity | exact Ht].
  rewrite withGroups_groups, withGroups_withGroups, list_alter_alter_eq. reflexivity.
Qed.

(** X11: on an input that sits in an input group with an error element,
    the [input] listener removes the class [error] from the group and,
    if the class was there, empties the error text; it changes no other
    class of the group (a [success] mark stays though the value has
    changed), no other group, and causes no event. *)
Theorem input_clears_error (e : Element) (w : World) g grp :
  elGroup e = Some g ->
  groups (page w) !! g = Some grp ->
  is_Some (errorMessage grp) ->
  completion (onInput e w) = Normal tt
  /\ events (onInput e w) = []
  /\ (exists grp', groups (page (world (onInput e w))) !! g = Some grp'
        /\ ("error" ∉ classList grp')
        /\ (forall c, c <> "error" -> c ∈ classList grp' <-> c ∈ classList grp)
        /\ errorMessage grp'
           = (if bool_decide ("error" ∈ classList grp) then Some EmptyString
              else errorMessage grp))
  /\ (forall g', g' <> g ->
        groups (page (world (onInput e w))) !! g' = groups (page w) !! g').
Proof.
  intros Hg Hgrp Herr. rewrite (onInput_run e w g grp Hg Hgrp Herr).
  unfold completion, events, world. cbn [fst snd].
  split; [reflexivity|]. split; [reflexivity|].
  destruct (bool_decide_reflect ("error" ∈ classList grp)) as [Hin|Hnot].
  - rewrite withGroups_groups. split.
    + eexists. split; [rewrite list_lookup_alter_eq, Hgrp; reflexivity|].
      cbn [classList errorMessage]. split; [|split; [|reflexivity]].
      * intros H. apply elem_of_difference in H as [_ H].
        apply H, elem_of_singleton. reflexivity.
      * intros c Hc. rewrite elem_of_difference, elem_of_singleton. tauto.
    + intros g' Hne. apply list_lookup_alter_ne. congruence.
  - split; [|reflexivity]. exists grp. repeat split; auto.
Qed.

(** X11 on the example page, after a failed validation of the name. *)
Lemma input_clears_error_witness :
  let e := mkElement "signUpName" (Some SignUpForm) (js "A") false (Some 2%nat) in
  let w := world (validateField e name exampleWorld) in
  let grp := mkInputGroup ({["error"]} ∪ ({["input-group"]} ∖ {["success"]}))
               (Some "Name must be at least 2 characters") in
  completion (onInput e w) = Normal tt
  /\ events (onInput e w) = []
  /\ (exists grp', groups (page (world (onInput e w))) !! 2%nat = Some grp'
        /\ ("error" ∉ classList grp')
        /\ (forall c, c <> "error" -> c ∈ classList grp' <-> c ∈ classList grp)
        /\ errorMessage grp'
           = (if bool_decide ("error" ∈ classList grp) then Some EmptyString
              else errorMessage grp))
  /\ (forall g', g' <> 2%nat ->
        groups (page (world (onInput e w))) !! g' = groups (page w) !! g').
Proof.
  intros e w grp. apply (input_clears_error e w 2%nat grp).
  - reflexivity.
  - vm_compute. reflexivity.
  - eexists. reflexivity.
Defined.

Lemma getElementById_run (id : string) (w : World) :
  getElementById id w
  = (Normal (find (fun e => bool_decide (elId e = id)) (elements (page w))), w, []).
Proof. reflexivity. Qed.

(** X12: the live check of the confirm-password input, on a page with
    both password inputs, marks an error exactly when both values are
    non-empty and differ; then it adds the class [error] to the group of
    the confirm input, removing no class (a [success] mark stays beside
    it), and shows "Passwords do not match", the message the
    confirm-password validator gives for that value; otherwise it
    changes nothing. *)
Theorem live_confirm_check (w : World) (confirm pw : Element) g grp :
  find (fun e => bool_decide (elId e = "signUpConfirmPassword")) (elements (page w))
    = Some confirm ->
  find (fun e => bool_decide (elId e = "signUpPassword")) (elements (page w)) = Some pw ->
  elGroup confirm = Some g ->
  groups (page w) !! g = Some grp ->
  is_Some (errorMessage grp) ->
  (elValue confirm <> [] /\ elValue pw <> [] /\ elValue confirm <> elValue pw ->
     confirmPasswordLiveCheck w
     = (Normal tt,
        withGroups
          (<[g := mkInputGroup ({["error"]} ∪ classList grp) (Some "Passwords do not match")]>
             (groups (page w))) w,
        [])
     /\ validatorMessage confirmPassword (elValue confirm) w = "Passwords do not match")
  /\ (~ (elValue confirm <> [] /\ elValue pw <> [] /\ elValue confirm <> elValue pw) ->
      confirmPasswordLiveCheck w = (Normal tt, w, [])).
Proof.
  intros Hc Hp Hg Hgrp [t Ht].
  assert (Hrun : confirmPasswordLiveCheck w =
            if truthy (elValue confirm) && truthy (elValue pw)
               && negb (bool_decide (elValue confirm = elValue pw))
            then (Normal tt,
                  withGroups
                    (<[g := mkInputGroup ({["error"]} ∪ classList grp)
                              (Some "Passwords do not match")]> (groups (page w))) w,
                  [])
            else (Normal tt, w, [])).
  { unfold confirmPasswordLiveCheck.
    unfold bind at 1. rewrite getElementById_run, Hc. cbv beta iota.
    unfold bind at 1. rewrite getElementById_run, Hp. cbv beta iota zeta.
    destruct (truthy (elValue confirm) && truthy (elValue pw)
              && negb (bool_decide (elValue confirm = elValue pw))); [|reflexivity].
    step_with (closest_run confirm w g grp Hg Hgrp).
    unfold classListAdd. step_with updateGroup_run.
    erewrite setErrorText_run;
      [| rewrite withGroups_groups, list_lookup_alter_eq, Hgrp; reflexivity | exact Ht].
    rewrite withGroups_groups, withGroups_withGroups, list_alter_alter_eq.
    cbn [app]. f_equal. f_equal. f_equal.
    apply list_eq. intros i. destruct (decide (i = g)) as [->|Hne].
    - rewrite list_lookup_alter_eq, Hgrp.
      rewrite list_lookup_insert_eq by (apply lookup_lt_Some in Hgrp; exact Hgrp).
      reflexivity.
    - rewrite list_lookup_alter_ne, list_lookup_insert_ne by congruence. reflexivity. }
  rewrite Hrun. split.
  - intros [H1 [H2 H3]].
    destruct (elValue confirm) as [|c cv] eqn:Ec; [congruence|].
    destruct (elValue pw) as [|p pv] eqn:Ep; [congruence|].
    cbn [truthy andb]. rewrite bool_decide_false by exact H3. cbn [negb].
    split; [reflexivity|].
    unfold validatorMessage, passwordFieldValue. rewrite Hp. cbn [truthy negb fmap option_fmap option_map].
    rewrite Ep. rewrite bool_decide_false by congruence. reflexivity.
  - intros Hn.
    destruct (elValue confirm) as [|c cv] eqn:Ec; [reflexivity|].
    destruct (elValue pw) as [|p pv] eqn:Ep; [reflexivity|].
    cbn [truthy andb].
    destruct (bool_decide_reflect (c :: cv = p :: pv)) as [E|E]; [reflexivity|].
    exfalso. apply Hn. repeat split; congruence.
Qed.

(** X12 on the example page, after the confirm value was validated and
    the user then typed another one: [success] and [error] side by side. *)
Lemma live_confirm_check_witness :
  let w := typeInto "signUpConfirmPassword" (js "secret2")
             (world (validateForm SignUpForm signUpFields exampleWorld)) in
  let grp := mkInputGroup ({["success"]} ∪ ({["input-group"]} ∖ {["error"]}))
               (Some EmptyString) in
  (js "secret2" <> [] /\ js "secret1" <> [] /\ js "secret2" <> js "secret1" ->
     confirmPasswordLiveCheck w
     = (Normal tt,
        withGroups
          (<[6%nat := mkInputGroup ({["error"]} ∪ classList grp)
                        (Some "Passwords do not match")]> (groups (page w))) w,
        [])
     /\ validatorMessage confirmPassword (js "secret2") w = "Passwords do not match")
  /\ (~ (js "secret2" <> [] /\ js "secret1" <> [] /\ js "secret2" <> js "secret1") ->
      confirmPasswordLiveCheck w = (Normal tt, w, [])).
Proof.
  intros w grp.
  apply (live_confirm_check w
           (mkElement "signUpConfirmPassword" (Some SignUpForm) (js "secret2") false
              (Some 6%nat))
           (mkElement "signUpPassword" (Some SignUpForm) (js "secret1") false (Some 5%nat))
           6%nat grp).
  - vm_compute. reflexivity.
  - vm_compute. reflexivity.
  - reflexivity.
  - vm_compute. reflexivity.
  - eexists. reflexivity.
Defined.

(** ** Remember me *)

Lemma find_checkFirst (id : string) (els : list Element) :
  is_Some (find (fun e => bool_decide (elId e = id)) els) ->
  elChecked <$> find (fun e => bool_decide (elId e = id)) (checkFirst id els) = Some true.
Proof.
  induction els as [|e els IH]; simpl.
  - intros [x Hx]. discriminate.
  - destruct (bool_decide (elId e = id)) eqn:He; simpl.
    + intros _. rewrite He. reflexivity.
    + intros H. rewrite He. apply IH. exact H.
Qed.

(** What the sign-in handler stores once the simulated submission is
    done, on a page with a "remember me" box. *)
Lemma signInResume_storage (w : World) (b : bool) :
  rememberMeChecked w = Some b ->
  completion (signInResume w) = Normal tt
  /\ localStorage (world (signInResume w))
     = (if b then <["rememberMe" := "true"]> (localStorage w)
        else delete "rememberMe" (localStorage w)).
Proof.
  unfold rememberMeChecked. intros Hbox.
  set (r := signInResume w).
  assert (Hr : r = signInResume w) by reflexivity. clearbody r. unfold signInResume in Hr.
  unfold bind at 1 in Hr. unfold submissionDone at 1, bind at 1, modify, emit at 1 in Hr.
  cbv beta iota in Hr.
  unfold bind at 1, refreshToken, bind at 1, emit at 1 in Hr. cbv beta iota in Hr.
  rewrite generateToken_run in Hr. cbv beta iota in Hr.
  unfold bind at 1, getElementById, bind at 1, get, ret at 1 in Hr. cbv beta iota in Hr.
  cbn [page set_page set_csrfToken set_entropyReads elements set_button
       entropy entropyReads] in Hr.
  destruct (find _ (elements (page w))) as [box|]; [|discriminate].
  cbn in Hbox. inversion Hbox; subst b.
  unfold bind at 1 in Hr. destruct (elChecked box).
  - unfold setItem, bind at 1, modify, emit in Hr. cbv beta iota in Hr.
    rewrite showToast_run in Hr. subst r. unfold world, completion. cbn [fst snd].
    split; reflexivity.
  - unfold removeItem, bind at 1, modify, emit in Hr. cbv beta iota in Hr.
    rewrite showToast_run in Hr. subst r. unfold world, completion. cbn [fst snd].
    split; reflexivity.
Qed.

Lemma loadRememberMe_run (w : World) :
  loadRememberMe w =
  (Normal tt,
   (if bool_decide (localStorage w !! "rememberMe" = Some "true")
    then match find (fun e => bool_decide (elId e = "rememberMe")) (elements (page w)) with
         | Some _ =>
             set_page (set_elements (checkFirst "rememberMe" (elements (page w))) (page w)) w
         | None => w
         end
    else w),
   []).
Proof.
  unfold loadRememberMe, bind at 1, get at 1. cbv beta iota zeta.
  destruct (bool_decide (localStorage w !! "rememberMe" = Some "true")); [|reflexivity].
  unfold bind. rewrite getElementById_run.
  destruct (find _ (elements (page w))); reflexivity.
Qed.

(** X13: the "remember me" flag survives a reload. When a sign-in is
    completed on a page whose box is ticked, the key [rememberMe] holds
    "true" afterwards, and when it is not ticked the key is gone; on a
    freshly loaded page with that storage and an unticked box,
    [loadRememberMe] leaves the box as it was at that sign-in. *)
Theorem remember_me_round_trip (w : World) (b : bool) :
  rememberMeChecked w = Some b ->
  completion (signInResume w) = Normal tt
  /\ localStorage (world (signInResume w)) !! "rememberMe"
     = (if b then Some "true" else None)
  /\ (forall w2,
        localStorage w2 = localStorage (world (signInResume w)) ->
        rememberMeChecked w2 = Some false ->
        completion (loadRememberMe w2) = Normal tt
        /\ rememberMeChecked (world (loadRememberMe w2)) = Some b).
Proof.
  intros Hbox. destruct (signInResume_storage w b Hbox) as [Hc Hst].
  assert (Hkey : localStorage (world (signInResume w)) !! "rememberMe"
                 = (if b then Some "true" else None)).
  { rewrite Hst. destruct b; [apply lookup_insert_eq | apply lookup_delete_eq]. }
  split; [exact Hc|]. split; [exact Hkey|].
  intros w2 Hsame Hbox2. rewrite loadRememberMe_run.
  unfold completion, world. cbn [fst snd]. split; [reflexivity|].
  rewrite Hsame, Hkey. destruct b.
  - rewrite bool_decide_true by reflexivity.
    unfold rememberMeChecked in *.
    destruct (find _ (elements (page w2))) as [box|] eqn:Ef; [|discriminate].
    cbn [page set_page elements set_elements].
    apply find_checkFirst. rewrite Ef. eauto.
  - rewrite bool_decide_false by discriminate. exact Hbox2.
Qed.

(** X13 on the example page, whose box is ticked, reloaded with the box
    unticked. *)
Lemma remember_me_round_trip_witness :
  completion (signInResume exampleWorld) = Normal tt
  /\ localStorage (world (signInResume exampleWorld)) !! "rememberMe"
     = (if true then Some "true" else None)
  /\ (forall w2,
        localStorage w2 = localStorage (world (signInResume exampleWorld)) ->
        rememberMeChecked w2 = Some false ->
        completion (loadRememberMe w2) = Normal tt
        /\ rememberMeChecked (world (loadRememberMe w2)) = Some true).
Proof.
  apply (remember_me_round_trip exampleWorld true). vm_compute. reflexivity.
Defined.

(** [loadRememberMe] never unticks the box and reads no value but
    "true". *)
Example loadRememberMe_other_values :
  forall w, localStorage w !! "rememberMe" <> Some "true" ->
            loadRememberMe w = (Normal tt, w, []).
Proof.
  intros w H. rewrite loadRememberMe_run. rewrite bool_decide_false by exact H.
  reflexivity.
Qed.

(** ** The form gate on a page that lacks what it expects *)

(** X14: [validateField] on an input outside every input group throws
    before it runs the validator and changes nothing; on an input whose
    group has no error element it throws too, but only after it has run
    the validator and changed the classes of the group: [error] added
    and [success] removed when the validator fails, [error] removed when
    it passes. *)
Theorem validateField_on_malformed_page (e : Element) (k : ValidatorKey) (w : World) :
  ((elGroup e ≫= fun g => groups (page w) !! g) = None ->
   validateField e k w = (Throw "inputGroup is null", w, []))
  /\ (forall g grp,
        elGroup e = Some g ->
        groups (page w) !! g = Some grp ->
        errorMessage grp = None ->
        validateField e k w
        = (Throw "errorElement is null",
           withGroups
             (<[g := mkInputGroup
                       (if truthyText (validatorMessage k (elValue e) w)
                        then {["error"]} ∪ (classList grp ∖ {["success"]})
                        else classList grp ∖ {["error"]})
                       None]> (groups (page w))) w,
           [EvValidator k (elValue e) (validatorMessage k (elValue e) w)])).
Proof.
  split.
  - intros Hnone. unfold validateField, bind at 1, closest, bind, get, ret.
    cbv beta iota.
    destruct (elGroup e) as [g|]; cbn in Hnone |- *; [|reflexivity].
    rewrite Hnone. reflexivity.
  - intros g grp Hg Hgrp Herr.
    assert (Hset : forall (f : InputGroup -> InputGroup) text,
               errorMessage (f grp) = None ->
               setErrorText g text (withGroups (alter f g (groups (page w))) w)
               = (Throw "errorElement is null",
                  withGroups (alter f g (groups (page w))) w, [])).
    { intros f text Hf. unfold setErrorText, bind, get. cbv beta iota.
      rewrite withGroups_groups, list_lookup_alter_eq, Hgrp. cbn. rewrite Hf.
      reflexivity. }
    assert (Hins : forall f : InputGroup -> InputGroup,
               alter f g (groups (page w)) = <[g := f grp]> (groups (page w))).
    { intros f. apply list_eq. intros i. destruct (decide (i = g)) as [->|Hne].
      - rewrite list_lookup_alter_eq, Hgrp.
        rewrite list_lookup_insert_eq by (apply lookup_lt_Some in Hgrp; exact Hgrp).
        reflexivity.
      - rewrite list_lookup_alter_ne, list_lookup_insert_ne by congruence. reflexivity. }
    unfold validateField.
    step_with (closest_run e w g grp Hg Hgrp).
    step_with validators_run.
    set (msg := validatorMessage k (elValue e) w).
    unfold bind at 1, emit. cbv beta iota.
    destruct (truthyText msg).
    + unfold classListRemove, classListAdd.
      step_with updateGroup_run. step_with updateGroup_run.
      rewrite withGroups_groups, withGroups_withGroups, list_alter_alter_eq.
      unfold bind at 1. rewrite Hset by (cbn; exact Herr).
      rewrite Hins. cbn. rewrite Herr. reflexivity.
    + unfold classListRemove.
      step_with updateGroup_run.
      unfold bind at 1. rewrite Hset by (cbn; exact Herr).
      rewrite Hins. cbn. rewrite Herr. reflexivity.
Qed.

Example validateField_outside_group :
  validateField (mkElement "rememberMe" (Some SignInForm) (js "on") true None)
    name exampleWorld
  = (Throw "inputGroup is null", exampleWorld, []).
Proof. reflexivity. Qed.

(** ** Validating again *)











(** ** More on the CSRF token manager *)

Lemma validateToken_run (token : jsstring) (w : World) :
  validateToken token w = (Normal (bool_decide (Some token = csrfToken w)), w, []).
Proof. reflexivity. Qed.

(** X16: the token [getToken] hands out validates at once, also when it
    had to be generated; no token validates while there is none; and
    after [refreshToken] a token validates exactly when it is the hex
    encoding of the 32 bytes just drawn, so the token of before the
    refresh validates only if the random source repeats it. *)
Theorem token_validates (w : World) :
  completion ((token <- getToken ;; validateToken token) w) = Normal true
  /\ (forall token, csrfToken w = None ->
                    completion (validateToken token w) = Normal false)
  /\ (forall token,
        completion ((_ <- refreshToken ;; validateToken token) w)
        = Normal (bool_decide
                    (token = hexEncode (map (entropy w) (seq (entropyReads w) 32))))).
Proof.
  split; [|split].
  - destruct (getToken_spec w) as [t [w' [evs [Hrun [Htok _]]]]].
    unfold bind. rewrite Hrun. cbv beta iota.
    rewrite validateToken_run, Htok. unfold completion. cbn [fst snd].
    rewrite bool_decide_true by reflexivity. reflexivity.
  - intros token Hnone. rewrite validateToken_run, Hnone. reflexivity.
  - intros token. unfold refreshToken, bind, emit. cbv beta iota.
    rewrite generateToken_run. cbv beta iota. rewrite validateToken_run.
    unfold completion. cbn [fst snd csrfToken set_csrfToken]. f_equal.
    apply bool_decide_ext. split; [intros H; inversion H; reflexivity | intros ->; reflexivity].
Qed.

(** ** The busy state of a submit button *)

(** X17: from the start of the simulated submission to the callback of
    its timer the button of the form carries the class [loading] and is
    disabled; the callback removes the class and enables the button, so
    a button that was idle and enabled is as it was, and one that was
    disabled before the submission is enabled by it. The button of the
    other form, the inputs and their groups are not touched. *)
Theorem busy_state_round_trip (form : FormId) (w : World) (b : Button) :
  buttonOf form (page w) = Some b ->
  let w1 := world (simulateFormSubmission form (Some b) w) in
  let w2 := world (submissionDone form w1) in
  buttonOf form (page w1) = Some (mkButton ({["loading"]} ∪ btnClassList b) true)
  /\ (exists cl, buttonOf form (page w2) = Some (mkButton cl false)
                 /\ ("loading" ∉ cl)
                 /\ (forall c, c <> "loading" -> c ∈ cl <-> c ∈ btnClassList b)
                 /\ ("loading" ∉ btnClassList b -> cl = btnClassList b))
  /\ (forall other, other <> form -> buttonOf other (page w2) = buttonOf other (page w))
  /\ elements (page w2) = elements (page w)
  /\ groups (page w2) = groups (page w).
Proof.
  intros Hb w1 w2. subst w1 w2.
  unfold simulateFormSubmission, submissionDone, setTimeout, bind, modify, emit, world.
  cbn [fst snd]. rewrite Hb.
  destruct form; cbn; (split; [reflexivity|]); (split; [|split; [|split; reflexivity]]).
  1,3: (eexists; split; [reflexivity|]; split;
        [ intros H; apply elem_of_difference in H as [_ H];
          apply H, elem_of_singleton; reflexivity
        | split;
          [ intros c Hc; rewrite elem_of_difference, elem_of_union, !elem_of_singleton; tauto
          | intros Hn; apply set_eq; intros c;
            rewrite elem_of_difference, elem_of_union, !elem_of_singleton;
            destruct (decide (c = "loading")) as [->|]; tauto ] ]).
  all: intros [] Hne; try congruence; reflexivity.
Qed.

(** X17 on the sign-in button of the example page. *)
Lemma busy_state_round_trip_witness :
  let b := mkButton {["btn-primary"]} false in
  let w1 := world (simulateFormSubmission SignInForm (Some b) exampleWorld) in
  let w2 := world (submissionDone SignInForm w1) in
  buttonOf SignInForm (page w1) = Some (mkButton ({["loading"]} ∪ btnClassList b) true)
  /\ (exists cl, buttonOf SignInForm (page w2) = Some (mkButton cl false)
                 /\ ("loading" ∉ cl)
                 /\ (forall c, c <> "loading" -> c ∈ cl <-> c ∈ btnClassList b)
                 /\ ("loading" ∉ btnClassList b -> cl = btnClassList b))
  /\ (forall other, other <> SignInForm ->
                    buttonOf other (page w2) = buttonOf other (page exampleWorld))
  /\ elements (page w2) = elements (page exampleWorld)
  /\ groups (page w2) = groups (page exampleWorld).
Proof.
  intros b.
  apply (busy_state_round_trip SignInForm exampleWorld b). reflexivity.
Defined.

(** ** Theme *)

Lemma toggleTheme_run (u : Ui) (ic : string) :
  themeIcon u = Some ic ->
  toggleTheme u =
  (Normal tt,
   set_core
     (set_page
        (set_toastContainer
           (toastContainer (page (core u)) ++
            [(info,
              (if bool_decide (dataTheme u = Some "dark") then "Light" else "Dark")
                +:+ " mode enabled")])
           (page (core u)))
        (set_localStorage
           (<["theme" := if bool_decide (dataTheme u = Some "dark") then "light" else "dark"]>
              (localStorage (core u)))
           (core u)))
     (set_themeIcon
        (Some (if bool_decide (dataTheme u = Some "dark") then "fa-solid fa-moon"
               else "fa-solid fa-sun"))
        (set_dataTheme
           (Some (if bool_decide (dataTheme u = Some "dark") then "light" else "dark")) u)),
   [ EvStorage "theme"
       (Some (if bool_decide (dataTheme u = Some "dark") then "light" else "dark"));
     EvToast info
       ((if bool_decide (dataTheme u = Some "dark") then "Light" else "Dark")
          +:+ " mode enabled");
     EvSetTimeout 3000 (HideToast (length (toastContainer (page (core u))))) ]).
Proof.
  intros Hic. unfold toggleTheme, updateThemeIcon, ubind, uget, umodify, liftM.
  unfold setItem, bind, modify, emit. cbv beta iota zeta.
  cbn [themeIcon set_dataTheme set_core core]. rewrite Hic.
  cbv beta iota.
  rewrite showToast_run.
  destruct (bool_decide (dataTheme u = Some "dark")); reflexivity.
Qed.

Lemma initTheme_run (u : Ui) (ic : string) :
  themeIcon u = Some ic ->
  initTheme u =
  (Normal tt,
   set_themeIcon
     (Some (if String.eqb (savedThemeOf (core u)) "dark" then "fa-solid fa-sun"
            else "fa-solid fa-moon"))
     (set_dataTheme (Some (savedThemeOf (core u))) u),
   []).
Proof.
  intros Hic. unfold initTheme, updateThemeIcon, ubind, uget, umodify.
  cbv beta iota zeta. cbn [themeIcon set_dataTheme]. rewrite Hic. reflexivity.
Qed.

(** X18: the theme survives a reload. On a page whose theme button has
    its icon, [toggleTheme] sets the attribute [data-theme] to "light" if
    it was "dark" and to "dark" otherwise, stores that value under the
    key [theme], shows the sun icon for dark and the moon for light, and
    tells the new mode in one info toast; [initTheme] on any page loaded
    with that storage then sets the same attribute and the same icon. *)
Theorem theme_survives_reload (u : Ui) (ic : string) :
  themeIcon u = Some ic ->
  let r := toggleTheme u in
  let newTheme := if bool_decide (dataTheme u = Some "dark") then "light" else "dark" in
  ucompletion r = Normal tt
  /\ dataTheme (ui r) = Some newTheme
  /\ localStorage (core (ui r)) !! "theme" = Some newTheme
  /\ themeIcon (ui r)
     = Some (if String.eqb newTheme "dark" then "fa-solid fa-sun" else "fa-solid fa-moon")
  /\ steps (uevents r) = [Notification info]
  /\ (forall u2 ic2,
        localStorage (core u2) = localStorage (core (ui r)) ->
        themeIcon u2 = Some ic2 ->
        ucompletion (initTheme u2) = Normal tt
        /\ dataTheme (ui (initTheme u2)) = Some newTheme
        /\ themeIcon (ui (initTheme u2)) = themeIcon (ui r)).
Proof.
  intros Hic r newTheme. subst r newTheme. rewrite (toggleTheme_run u ic Hic).
  unfold ucompletion, ui, uevents. cbn [fst snd].
  cbn [dataTheme themeIcon core set_core set_themeIcon set_dataTheme
       localStorage set_page set_localStorage].
  split; [reflexivity|]. split; [reflexivity|].
  split; [apply lookup_insert_eq|].
  split; [destruct (bool_decide (dataTheme u = Some "dark")); reflexivity|].
  split; [reflexivity|].
  intros u2 ic2 Hst Hic2. rewrite (initTheme_run u2 ic2 Hic2).
  cbn [fst snd dataTheme themeIcon set_themeIcon set_dataTheme].
  assert (Hsaved : savedThemeOf (core u2)
                   = if bool_decide (dataTheme u = Some "dark") then "light" else "dark").
  { unfold savedThemeOf. rewrite Hst, lookup_insert_eq.
    destruct (bool_decide (dataTheme u = Some "dark")); reflexivity. }
  rewrite Hsaved. repeat split.
  destruct (bool_decide (dataTheme u = Some "dark")); reflexivity.
Qed.

(** X19: on a page whose theme is "light" or "dark", two clicks on the
    theme button bring back the theme, store it, and show its icon. *)
Theorem toggle_theme_twice (u : Ui) (theme ic : string) :
  dataTheme u = Some theme ->
  theme = "light" \/ theme = "dark" ->
  themeIcon u = Some ic ->
  let r := toggleTheme (ui (toggleTheme u)) in
  ucompletion r = Normal tt
  /\ dataTheme (ui r) = Some theme
  /\ localStorage (core (ui r)) !! "theme" = Some theme
  /\ themeIcon (ui r)
     = Some (if String.eqb theme "dark" then "fa-solid fa-sun" else "fa-solid fa-moon")
  /\ length (toastContainer (page (core (ui r))))
     = (length (toastContainer (page (core u))) + 2)%nat.
Proof.
  intros Hth Hcase Hic r. subst r.
  rewrite (toggleTheme_run u ic Hic). unfold ui at 1. cbn [fst snd].
  erewrite toggleTheme_run by reflexivity.
  unfold ucompletion, ui. cbn [fst snd].
  cbn [dataTheme themeIcon core set_core set_themeIcon set_dataTheme
       localStorage set_page set_localStorage page toastContainer set_toastContainer].
  rewrite Hth. split; [reflexivity|].
  destruct Hcase as [-> | ->]; cbn;
    (split; [reflexivity|]); (split; [apply lookup_insert_eq|]);
    (split; [reflexivity|]); rewrite !length_app; cbn; lia.
Qed.

Lemma theme_survives_reload_witness :
  themeIcon exampleUi = Some "fa-solid fa-moon"
  /\ dataTheme (ui (toggleTheme exampleUi)) = Some "dark"
  /\ dataTheme (ui (initTheme (set_core (core (ui (toggleTheme exampleUi))) exampleUi)))
     = Some "dark".
Proof.
  split; [reflexivity|].
  pose proof (theme_survives_reload exampleUi "fa-solid fa-moon" eq_refl) as H.
  cbv zeta in H. destruct H as (_ & Hd & _ & _ & _ & Hre).
  split; [exact Hd|].
  exact (proj1 (proj2 (Hre (set_core (core (ui (toggleTheme exampleUi))) exampleUi)
                         "fa-solid fa-moon" eq_refl eq_refl))).
Defined.

Lemma toggle_theme_twice_witness :
  dataTheme (set_dataTheme (Some "light") exampleUi) = Some "light"
  /\ dataTheme (ui (toggleTheme (ui (toggleTheme (set_dataTheme (Some "light") exampleUi)))))
     = Some "light".
Proof.
  split; [reflexivity|].
  exact (proj1 (proj2 (toggle_theme_twice (set_dataTheme (Some "light") exampleUi)
                         "light" "fa-solid fa-moon" eq_refl (or_introl eq_refl) eq_refl))).
Defined.

(** X20: [initTheme] does not validate what is stored. With nothing or
    the empty string under the key [theme] the page starts light; any
    other stored string becomes the attribute [data-theme] as it is, with
    the moon icon unless it is exactly "dark", and the first click on the
    theme button then sets "dark" unless it was "dark". Starting writes
    nothing and shows no toast. *)
Theorem initTheme_applies_stored_value (u : Ui) (ic : string) :
  themeIcon u = Some ic ->
  let r := initTheme u in
  ucompletion r = Normal tt
  /\ core (ui r) = core u
  /\ uevents r = []
  /\ (localStorage (core u) !! "theme" = None
      \/ localStorage (core u) !! "theme" = Some EmptyString ->
      dataTheme (ui r) = Some "light" /\ themeIcon (ui r) = Some "fa-solid fa-moon")
  /\ (forall saved,
        localStorage (core u) !! "theme" = Some saved ->
        saved <> EmptyString ->
        dataTheme (ui r) = Some saved
        /\ (themeIcon (ui r) = Some "fa-solid fa-sun" <-> saved = "dark")
        /\ dataTheme (ui (toggleTheme (ui r)))
           = Some (if bool_decide (saved = "dark") then "light" else "dark")).
Proof.
  intros Hic r. subst r. rewrite (initTheme_run u ic Hic).
  unfold ucompletion, ui, uevents. cbn [fst snd].
  cbn [core dataTheme themeIcon set_themeIcon set_dataTheme].
  split; [reflexivity|]. split; [reflexivity|]. split; [reflexivity|].
  split.
  - unfold savedThemeOf. intros [-> | ->]; split; reflexivity.
  - intros saved Hsaved Hne. unfold savedThemeOf. rewrite Hsaved.
    assert (Ht : truthyText saved = true) by (destruct saved; [congruence | reflexivity]).
    rewrite Ht. split; [reflexivity|]. split.
    + destruct (String.eqb_spec saved "dark") as [-> | Hnd].
      * split; reflexivity.
      * split; [discriminate | intros ->; congruence].
    + erewrite toggleTheme_run by reflexivity. cbn [fst snd dataTheme set_core set_themeIcon set_dataTheme].
      f_equal. rewrite (bool_decide_ext (Some saved = Some "dark") (saved = "dark"));
        [reflexivity | split; congruence].
Qed.

(** X21: the theme button without its icon. [initTheme] throws, having
    set the attribute; [toggleTheme] throws, having set the attribute and
    stored the new theme, and shows no toast. *)
Theorem theme_icon_missing (u : Ui) :
  themeIcon u = None ->
  let newTheme := if bool_decide (dataTheme u = Some "dark") then "light" else "dark" in
  (exists e, ucompletion (initTheme u) = Throw e)
  /\ dataTheme (ui (initTheme u)) = Some (savedThemeOf (core u))
  /\ (exists e, ucompletion (toggleTheme u) = Throw e)
  /\ dataTheme (ui (toggleTheme u)) = Some newTheme
  /\ localStorage (core (ui (toggleTheme u))) !! "theme" = Some newTheme
  /\ steps (uevents (toggleTheme u)) = []
  /\ toastContainer (page (core (ui (toggleTheme u)))) = toastContainer (page (core u)).
Proof.
  intros Hic newTheme. subst newTheme.
  assert (Hi : initTheme u
               = (Throw "icon is null", set_dataTheme (Some (savedThemeOf (core u))) u, [])).
  { unfold initTheme, updateThemeIcon, ubind, uget, umodify.
    cbv beta iota zeta. cbn [themeIcon set_dataTheme]. rewrite Hic. reflexivity. }
  assert (Ht : toggleTheme u
               = (Throw "icon is null",
                  set_core
                    (set_localStorage
                       (<["theme" := if bool_decide (dataTheme u = Some "dark")
                                     then "light" else "dark"]> (localStorage (core u)))
                       (core u))
                    (set_dataTheme
                       (Some (if bool_decide (dataTheme u = Some "dark")
                              then "light" else "dark")) u),
                  [EvStorage "theme"
                     (Some (if bool_decide (dataTheme u = Some "dark")
                            then "light" else "dark"))])).
  { unfold toggleTheme, updateThemeIcon, ubind, uget, umodify, liftM.
    unfold setItem, bind, modify, emit. cbv beta iota zeta.
    cbn [themeIcon set_dataTheme set_core core]. rewrite Hic. reflexivity. }
  rewrite Hi, Ht. unfold ucompletion, ui, uevents. cbn [fst snd].
  cbn [dataTheme core set_core set_dataTheme localStorage set_localStorage page].
  split; [eexists; reflexivity|]. split; [reflexivity|].
  split; [eexists; reflexivity|]. split; [reflexivity|].
  split; [apply lookup_insert_eq|]. split; reflexivity.
Qed.

Lemma initTheme_applies_stored_value_witness :
  themeIcon exampleUi = Some "fa-solid fa-moon"
  /\ dataTheme (ui (initTheme exampleUi)) = Some "light".
Proof.
  split; [reflexivity|].
  pose proof (initTheme_applies_stored_value exampleUi "fa-solid fa-moon" eq_refl) as H.
  cbv zeta in H. destruct H as (_ & _ & _ & Hdef & _).
  exact (proj1 (Hdef (or_introl eq_refl))).
Defined.

Lemma theme_icon_missing_witness :
  themeIcon (set_themeIcon None exampleUi) = None
  /\ dataTheme (ui (toggleTheme (set_themeIcon None exampleUi))) = Some "dark".
Proof.
  split; [reflexivity|].
  pose proof (theme_icon_missing (set_themeIcon None exampleUi) eq_refl) as H.
  cbv zeta in H. destruct H as (_ & _ & _ & Hd & _).
  exact Hd.
Defined.

(** ** Strength meter *)

Lemma strengthLabel_cases (password : jsstring) :
  let strength := checkPasswordStrength password in
  (strength = "weak" /\ strengthLabels !! strength = Some "Weak password")
  \/ (strength = "medium" /\ strengthLabels !! strength = Some "Medium strength")
  \/ (strength = "strong" /\ strengthLabels !! strength = Some "Strong password").
Proof.
  cbv zeta. unfold checkPasswordStrength.
  destruct (strengthScore password <=? 2)%nat; [left; split; reflexivity|].
  destruct (strengthScore password <=? 4)%nat; right; [left | right]; split; reflexivity.
Qed.

(** X22: the strength meter. With its three elements on the page,
    [updatePasswordStrength] never throws and touches nothing else; the
    meter is visible afterwards exactly when the password is not empty,
    its other classes kept. For a password that is not empty the fill
    and the text get the class of [checkPasswordStrength] and the text
    its label; for the empty password the meter is only hidden: fill,
    class and label stay as the last password left them. *)
Theorem meter_shows_strength (u : Ui) (password : jsstring)
    (classes : gset string) (fill textClass text : string) :
  passwordStrength u = Some classes ->
  strengthFill u = Some fill ->
  strengthText u = Some (textClass, text) ->
  let r := updatePasswordStrength password u in
  let strength := checkPasswordStrength password in
  ucompletion r = Normal tt
  /\ uevents r = []
  /\ core (ui r) = core u
  /\ (exists classes',
        passwordStrength (ui r) = Some classes'
        /\ ("visible" ∈ classes' <-> password <> [])
        /\ (forall c, c <> "visible" -> c ∈ classes' <-> c ∈ classes))
  /\ (password = [] ->
      strengthFill (ui r) = Some fill /\ strengthText (ui r) = Some (textClass, text))
  /\ (password <> [] ->
      strengthFill (ui r) = Some ("strength-fill " +:+ strength)
      /\ exists label,
           strengthText (ui r) = Some ("strength-text " +:+ strength, label)
           /\ ((strength = "weak" /\ label = "Weak password")
               \/ (strength = "medium" /\ label = "Medium strength")
               \/ (strength = "strong" /\ label = "Strong password"))).
Proof.
  intros Hps Hfill Htext r strength. subst r strength.
  unfold updatePasswordStrength, ubind, uget, umodify. cbv beta iota zeta.
  rewrite Hps. destruct password as [|c password].
  - cbn [length Nat.eqb]. unfold ucompletion, ui, uevents. cbn [fst snd].
    cbn [core passwordStrength strengthFill strengthText set_passwordStrength].
    split; [reflexivity|]. split; [reflexivity|]. split; [reflexivity|].
    split.
    { eexists. split; [reflexivity|]. split.
      - rewrite elem_of_difference, elem_of_singleton. split; [tauto | congruence].
      - intros c Hc. rewrite elem_of_difference, elem_of_singleton. tauto. }
    split; [intros _; split; assumption | congruence].
  - cbn [length Nat.eqb]. cbn [strengthFill set_passwordStrength]. rewrite Hfill.
    cbv beta iota. cbn [strengthText set_strengthFill set_passwordStrength]. rewrite Htext.
    cbv beta iota. unfold ucompletion, ui, uevents. cbn [fst snd].
    cbn [core passwordStrength strengthFill strengthText set_passwordStrength
         set_strengthFill set_strengthText].
    split; [reflexivity|]. split; [reflexivity|]. split; [reflexivity|].
    split.
    { eexists. split; [reflexivity|]. split.
      - rewrite elem_of_union, elem_of_singleton. split; [congruence | auto].
      - intros c' Hc'. rewrite elem_of_union, elem_of_singleton. tauto. }
    split; [congruence|]. intros _. split; [reflexivity|].
    pose proof (strengthLabel_cases (c :: password)) as Hl. cbv zeta in Hl.
    destruct Hl as [[Hs Hl] | [[Hs Hl] | [Hs Hl]]]; rewrite Hl;
      eexists; (split; [reflexivity|]); rewrite Hs; auto.
Qed.

Lemma meter_shows_strength_witness :
  passwordStrength exampleUi = Some {["password-strength"]}
  /\ strengthFill exampleUi = Some "strength-fill"
  /\ strengthText exampleUi = Some ("strength-text", EmptyString)
  /\ ucompletion (updatePasswordStrength (js "Passw0rd!") exampleUi) = Normal tt.
Proof.
  split; [reflexivity|]. split; [reflexivity|]. split; [reflexivity|].
  exact (proj1 (meter_shows_strength exampleUi (js "Passw0rd!") _ _ _ _
                  eq_refl eq_refl eq_refl)).
Defined.

(** ** Password visibility *)

(** X23: the eye button. With the input beside the toggle and the icon in
    it, a click never throws; it shows the text of a password input and
    hides every other input, the icon telling which: the crossed eye
    while the text shows. Two clicks bring an input of type "password" or
    "text" back to its type, and leave any other input as "text". *)
Theorem password_toggle_clicks (u : Ui) (i j : nat) (toggle : Toggle) (type ic : string) :
  passwordToggles u !! i = Some toggle ->
  tgInput toggle = Some j ->
  inputTypes u !! j = Some type ->
  tgIcon toggle = Some ic ->
  let r1 := togglePasswordVisibility i u in
  let r2 := togglePasswordVisibility i (ui r1) in
  let shown := bool_decide (type = "password") in
  ucompletion r1 = Normal tt
  /\ toggledType (ui r1) i = Some (if shown then "text" else "password")
  /\ tgIcon <$> passwordToggles (ui r1) !! i
     = Some (Some (if shown then "fa-solid fa-eye-slash" else "fa-solid fa-eye"))
  /\ ucompletion r2 = Normal tt
  /\ toggledType (ui r2) i = Some (if shown then "password" else "text")
  /\ tgIcon <$> passwordToggles (ui r2) !! i
     = Some (Some (if shown then "fa-solid fa-eye" else "fa-solid fa-eye-slash"))
  /\ core (ui r2) = core u
  /\ uevents r1 = [] /\ uevents r2 = [].
Proof.
  intros Htg Hin Hty Hic r1 r2 shown.
  assert (Hj : (j < length (inputTypes u))%nat) by (eapply lookup_lt_Some; eassumption).
  assert (Hrun : forall (v : Ui) (tg : Toggle) (ty ic' : string),
             passwordToggles v !! i = Some tg -> tgInput tg = Some j ->
             inputTypes v !! j = Some ty -> tgIcon tg = Some ic' ->
             togglePasswordVisibility i v
             = (Normal tt,
                set_passwordToggles
                  (alter (fun t => mkToggle (tgInput t)
                                     (Some (if negb (String.eqb ty "password")
                                            then "fa-solid fa-eye"
                                            else "fa-solid fa-eye-slash")))
                     i (passwordToggles v))
                  (set_inputTypes
                     (<[j := if negb (String.eqb ty "password") then "password" else "text"]>
                        (inputTypes v)) v),
                [])).
  { intros v tg ty ic' H1 H2 H3 H4.
    unfold togglePasswordVisibility, ubind, uget, umodify. cbv beta iota zeta.
    rewrite H1, H2. cbn [mbind option_bind]. rewrite H3. cbn [fmap option_fmap option_map].
    cbv beta iota. rewrite H4. reflexivity. }
  assert (E1 : r1 = togglePasswordVisibility i u) by reflexivity.
  rewrite (Hrun u toggle type ic Htg Hin Hty Hic) in E1.
  assert (Htg1 : passwordToggles (ui r1) !! i
                 = Some (mkToggle (Some j)
                           (Some (if negb (String.eqb type "password")
                                  then "fa-solid fa-eye" else "fa-solid fa-eye-slash")))).
  { rewrite E1. unfold ui. cbn [fst snd passwordToggles set_passwordToggles].
    rewrite list_lookup_alter_eq, Htg. cbn. rewrite Hin. reflexivity. }
  assert (Hty1 : inputTypes (ui r1) !! j
                 = Some (if negb (String.eqb type "password") then "password" else "text")).
  { rewrite E1. unfold ui. cbn [fst snd inputTypes set_passwordToggles set_inputTypes].
    apply list_lookup_insert_eq. exact Hj. }
  assert (E2 : r2 = togglePasswordVisibility i (ui r1)) by reflexivity.
  rewrite (Hrun (ui r1) _ _ _ Htg1 eq_refl Hty1 eq_refl) in E2.
  assert (Hshown : String.eqb type "password" = shown).
  { subst shown. destruct (String.eqb_spec type "password") as [-> | Hne].
    - symmetry. apply bool_decide_eq_true. reflexivity.
    - symmetry. apply bool_decide_eq_false. exact Hne. }
  clearbody r1 r2. rewrite Hshown in *. clear Hshown. clearbody shown.
  assert (Hj1 : (j < length (inputTypes (ui r1)))%nat) by (eapply lookup_lt_Some; eassumption).
  assert (Hc1 : core (ui r1) = core u) by (rewrite E1; reflexivity).
  split; [rewrite E1; reflexivity|].
  split.
  { unfold toggledType. rewrite Htg1. cbn. rewrite Hty1. destruct shown; reflexivity. }
  split; [rewrite Htg1; destruct shown; reflexivity|].
  split; [rewrite E2; reflexivity|].
  assert (Ee1 : uevents r1 = []) by (rewrite E1; reflexivity).
  clear E1. unfold ui in *. set (u1 := r1.1.2) in *. clearbody u1. subst r2.
  unfold ucompletion, uevents. cbn [fst snd].
  cbn [passwordToggles inputTypes core set_passwordToggles set_inputTypes].
  split.
  { unfold toggledType.
    cbn [passwordToggles inputTypes set_passwordToggles set_inputTypes].
    rewrite list_lookup_alter_eq, Htg1. cbn.
    rewrite list_lookup_insert_eq by exact Hj1. destruct shown; reflexivity. }
  split.
  { rewrite list_lookup_alter_eq, Htg1. destruct shown; reflexivity. }
  split; [exact Hc1|].
  split; [exact Ee1 | reflexivity].
Qed.

Lemma password_toggle_clicks_witness :
  passwordToggles exampleUi !! 1%nat = Some (mkToggle (Some 1%nat) (Some "fa-solid fa-eye"))
  /\ inputTypes exampleUi !! 1%nat = Some "password"
  /\ toggledType (ui (togglePasswordVisibility 1 exampleUi)) 1 = Some "text".
Proof.
  split; [reflexivity|]. split; [reflexivity|].
  exact (proj1 (proj2 (password_toggle_clicks exampleUi 1 1 _ "password" "fa-solid fa-eye"
                         eq_refl eq_refl eq_refl eq_refl))).
Defined.

(** ** Debounce *)

Lemma calls_snoc_Call {A} (acts : list (Debounce.action A)) (now : Z) (args : A) :
  Debounce.calls (acts ++ [Debounce.Call now args]) = Debounce.calls acts ++ [(now, args)].
Proof. unfold Debounce.calls. rewrite omap_app. reflexivity. Qed.

Lemma calls_snoc_Fire {A} (acts : list (Debounce.action A)) (id : nat) (now : Z) :
  Debounce.calls (acts ++ [Debounce.Fire id now]) = Debounce.calls acts.
Proof. unfold Debounce.calls. rewrite omap_app. cbn. apply app_nil_r. Qed.

Lemma run_snoc {A} (wait : Z) (acts : list (Debounce.action A)) (a : Debounce.action A)
    (s : Debounce.state A) :
  Debounce.run wait (acts ++ [a]) s = Debounce.step wait a (Debounce.run wait acts s).
Proof. unfold Debounce.run. rewrite fold_left_app. reflexivity. Qed.

Lemma run_app {A} (wait : Z) (acts1 acts2 : list (Debounce.action A))
    (s : Debounce.state A) :
  Debounce.run wait (acts1 ++ acts2) s
  = Debounce.run wait acts2 (Debounce.run wait acts1 s).
Proof. unfold Debounce.run. apply fold_left_app. Qed.

Lemma clearTimeout_inv {A} (wait : Z) (acts : list (Debounce.action A))
    (s : Debounce.state A) :
  debounceInv wait acts s -> Debounce.clearTimeout s = ∅.
Proof.
  intros ([He | (id & t & a & Hto & Htm & _)] & _). 
  - unfold Debounce.clearTimeout. rewrite He.
    destruct (Debounce.timeout s); [apply delete_empty | reflexivity].
  - unfold Debounce.clearTimeout. rewrite Hto, Htm. apply delete_singleton_eq.
Qed.

Lemma debounce_step_inv {A} (wait : Z) (acts : list (Debounce.action A))
    (a : Debounce.action A) (s : Debounce.state A) :
  debounceInv wait acts s -> debounceInv wait (acts ++ [a]) (Debounce.step wait a s).
Proof.
  intros Hinv. pose proof (clearTimeout_inv wait acts s Hinv) as Hclear.
  destruct a as [now args | id now].
  - destruct Hinv as (_ & H2 & H3).
    cbn [Debounce.step]. unfold Debounce.executedFunction. rewrite Hclear, insert_empty.
    unfold debounceInv. cbn [Debounce.timers Debounce.timeout Debounce.invoked].
    rewrite calls_snoc_Call. split; [|split].
    + right. exists (Debounce.nextTimer s), now, args.
      split; [reflexivity|]. split; [reflexivity|]. apply last_snoc.
    + revert H2. apply List.Forall_impl. intros i (t0 & Hin & Hle).
      exists t0. split; [|exact Hle]. apply elem_of_app. left. exact Hin.
    + rewrite map_size_singleton, length_app. cbn [length]. lia.
  - cbn [Debounce.step]. unfold debounceInv. rewrite calls_snoc_Fire.
    fold (debounceInv wait acts (Debounce.fire id now s)).
    unfold Debounce.fire.
    destruct (Debounce.timers s !! id) as [[due args]|] eqn:Hlk; [|exact Hinv].
    destruct (due <=? now) eqn:Hdue; [|exact Hinv].
    apply Z.leb_le in Hdue.
    destruct Hinv as ([He | (id0 & t & a & Hto & Htm & Hlast)] & H2 & H3).
    { rewrite He, lookup_empty in Hlk. discriminate. }
    rewrite Htm in Hlk. apply lookup_singleton_Some in Hlk. destruct Hlk as [<- Hx].
    injection Hx as <- <-.
    assert (Hnow : Debounce.clearTimeout
                     (Debounce.mk (Debounce.timeout s) (delete id0 (Debounce.timers s))
                        (Debounce.nextTimer s) (Debounce.invoked s)) = ∅).
    { unfold Debounce.clearTimeout. cbn [Debounce.timeout Debounce.timers].
      rewrite Hto, Htm, delete_singleton_eq. apply delete_empty. }
    cbv zeta. cbn [Debounce.timeout Debounce.nextTimer Debounce.invoked]. rewrite Hnow.
    unfold debounceInv. cbn [Debounce.timers Debounce.timeout Debounce.invoked].
    split; [left; reflexivity|]. split.
    + apply Forall_app. split; [exact H2|]. constructor; [|constructor].
      exists t. cbn [fst snd]. split; [|exact Hdue].
      apply last_Some in Hlast. destruct Hlast as [l' ->].
      apply elem_of_app. right. apply list_elem_of_here.
    + rewrite Htm, map_size_singleton in H3. rewrite length_app, map_size_empty.
      cbn [length]. lia.
Qed.

Lemma debounce_run_inv {A} (wait : Z) (acts : list (Debounce.action A)) (n : nat) :
  debounceInv wait acts (Debounce.run wait acts (Debounce.init n)).
Proof.
  induction acts as [|a acts IH] using rev_ind.
  - unfold debounceInv. cbn. split; [left; reflexivity|]. split; [constructor|].
    rewrite map_size_empty. lia.
  - rewrite run_snoc. apply debounce_step_inv. exact IH.
Qed.

Lemma burst_keeps_invoked {A} (wait : Z) (burst : list (Z * A)) (s : Debounce.state A) :
  Debounce.invoked (Debounce.run wait (burstOf burst) s) = Debounce.invoked s.
Proof.
  revert s. induction burst as [|c burst IH]; intros s; [reflexivity|].
  cbn. unfold Debounce.run in IH. rewrite IH. reflexivity.
Qed.

(** X24: what a debounced function does, whatever the calls and timers.
    After any calls of the closure and any firings, at most one timer of
    the closure is pending: the one the variable [timeout] names, set by
    the last call and due [wait] after it. Every call of [func] carries
    the arguments of a call of the closure made at least [wait] before,
    and [func] is called at most as often as the closure. *)
Theorem debounce_invocations {A} (wait : Z) (acts : list (Debounce.action A)) (n : nat) :
  let s := Debounce.run wait acts (Debounce.init n) in
  (size (Debounce.timers s) <= 1)%nat
  /\ (forall id due args,
        Debounce.timers s !! id = Some (due, args) ->
        Debounce.timeout s = Some id
        /\ exists t, last (Debounce.calls acts) = Some (t, args) /\ due = t + wait)
  /\ (forall now args,
        (now, args) ∈ Debounce.invoked s ->
        exists t, (t, args) ∈ Debounce.calls acts /\ t + wait <= now)
  /\ (length (Debounce.invoked s) <= length (Debounce.calls acts))%nat.
Proof.
  intros s. destruct (debounce_run_inv wait acts n) as (H1 & H2 & H3). fold s in H1, H2, H3.
  split; [|split; [|split]].
  - destruct H1 as [He | (id & t & a & _ & Htm & _)].
    + rewrite He, map_size_empty. lia.
    + rewrite Htm, map_size_singleton. lia.
  - intros id due args Hlk. destruct H1 as [He | (id0 & t & a & Hto & Htm & Hlast)].
    + rewrite He, lookup_empty in Hlk. discriminate.
    + rewrite Htm in Hlk. apply lookup_singleton_Some in Hlk. destruct Hlk as [<- Hx].
      injection Hx as <- <-. split; [exact Hto|]. exists t. split; [exact Hlast | reflexivity].
  - intros now args Hin. rewrite List.Forall_forall in H2.
    apply list_elem_of_In in Hin. exact (H2 _ Hin).
  - lia.
Qed.

(** X25: a burst of calls gets through once. After any history, a burst
    of calls of the closure ending with the call at time [t] with
    arguments [a] calls [func] not at all; it leaves one timer pending.
    Firing that timer before [t + wait], or any other timer, does
    nothing; firing it from [t + wait] on calls [func] once, with [a],
    and leaves no timer. *)
Theorem debounce_burst {A} (wait : Z) (acts : list (Debounce.action A)) (n : nat)
    (burst : list (Z * A)) (t : Z) (a : A) :
  let s0 := Debounce.run wait acts (Debounce.init n) in
  let s := Debounce.run wait (burstOf burst ++ [Debounce.Call t a]) s0 in
  exists id,
    Debounce.timeout s = Some id
    /\ Debounce.timers s = {[ id := (t + wait, a) ]}
    /\ Debounce.invoked s = Debounce.invoked s0
    /\ (forall id' now, id' <> id \/ now < t + wait -> Debounce.fire id' now s = s)
    /\ (forall now,
          t + wait <= now ->
          Debounce.invoked (Debounce.fire id now s) = Debounce.invoked s0 ++ [(now, a)]
          /\ Debounce.timers (Debounce.fire id now s) = ∅).
Proof.
  intros s0 s.
  set (s1 := Debounce.run wait (burstOf burst) s0).
  assert (Hs : s = Debounce.executedFunction wait t a s1).
  { subst s s1. rewrite run_snoc. reflexivity. }
  assert (Hinv : debounceInv wait (acts ++ burstOf burst) s1).
  { subst s1 s0. rewrite <- run_app. apply debounce_run_inv. }
  assert (Hi : Debounce.invoked s1 = Debounce.invoked s0)
    by (subst s1; apply burst_keeps_invoked).
  pose proof (clearTimeout_inv _ _ _ Hinv) as Hclear.
  clearbody s s1. subst s. unfold Debounce.executedFunction. rewrite Hclear, insert_empty.
  exists (Debounce.nextTimer s1). cbn [Debounce.timeout Debounce.timers Debounce.invoked].
  split; [reflexivity|]. split; [reflexivity|]. split; [exact Hi|]. split.
  - intros id' now Hcase. unfold Debounce.fire. cbn [Debounce.timers].
    destruct (decide (id' = Debounce.nextTimer s1)) as [-> | Hne].
    + rewrite lookup_singleton_eq. destruct Hcase as [Hc | Hc]; [congruence|].
      destruct (Z.leb_spec (t + wait) now); [lia | reflexivity].
    + rewrite lookup_singleton_ne by congruence. reflexivity.
  - intros now Hdue. unfold Debounce.fire. cbn [Debounce.timers].
    rewrite lookup_singleton_eq. destruct (Z.leb_spec (t + wait) now); [|lia].
    cbv zeta. cbn [Debounce.timeout Debounce.timers Debounce.invoked Debounce.nextTimer].
    unfold Debounce.clearTimeout. cbn [Debounce.timeout Debounce.timers].
    rewrite delete_singleton_eq, delete_empty, Hi. split; reflexivity.
Qed.

(** The meter of the sign-up password is debounced by 150 ms: typing
    "a", "ab", "abc" within the delay runs the update once, for "abc". *)
Example debounced_meter_scenario :
  let typed := [Debounce.Call 0 (js "a"); Debounce.Call 100 (js "ab");
                Debounce.Fire 0 150; Debounce.Call 200 (js "abc");
                Debounce.Fire 1 250; Debounce.Fire 2 349; Debounce.Fire 2 350] in
  Debounce.invoked (Debounce.run 150 typed (Debounce.init 0)) = [(350, js "abc")].
Proof. reflexivity. Qed.
